(** * go-rproxy: a shallow embedding of [rproxy] (src/server/server.go)

    The reverse proxy accepts connections on a listen side, dials a fixed
    backend for each of them and copies bytes in both directions.  The
    embedding has three layers:

    - pure code ([strings.ToLower], [NewRProxy]) as functions;
    - the sequential start-up code of [Start] / [startTCP] / [startTLS] as a
      function in an error-and-event-log style;
    - the concurrent part (accept loop, one goroutine per connection, one
      more goroutine per relay) as a step function driven by a schedule:
      every step names the goroutine that runs and carries the answers of
      the operating system to the call it makes.

    Everything that lives outside the repository (file system, PEM parsing,
    name resolution, certificate chain verification, the non-ASCII branch of
    [strings.ToLower]) is a field of [World]. *)

From Stdlib Require Import String Ascii ZArith List Bool Lia.
From stdpp Require Import base list.
Import ListNotations.
Local Open Scope string_scope.
Local Open Scope list_scope.

(** ** Results of fallible library calls *)

Inductive result (A : Type) : Type :=
| Ok (x : A)
| Err (e : string).
Arguments Ok {A} x.
Arguments Err {A} e.

(** ** Go strings and [strings.ToLower]

    A Go string is a sequence of bytes; [string] of the Standard Library is
    a list of 8-bit characters. *)

Module GoStrings.

Definition byteVal (c : ascii) : nat := nat_of_ascii c.

(** [c >= utf8.RuneSelf] fails, that is [c < 0x80]. *)
Definition isASCIIByte (c : ascii) : bool := (byteVal c <? 128)%nat.

(** ['A' <= c && c <= 'Z'] *)
Definition isUpperByte (c : ascii) : bool :=
  ((65 <=? byteVal c) && (byteVal c <=? 90))%nat.

(** [c += 'a' - 'A'] for an upper-case byte *)
Definition lowerByte (c : ascii) : ascii :=
  if isUpperByte c then ascii_of_nat (byteVal c + 32) else c.

Fixpoint isASCII (s : string) : bool :=
  match s with
  | EmptyString => true
  | String c s' => isASCIIByte c && isASCII s'
  end.

Fixpoint hasUpper (s : string) : bool :=
  match s with
  | EmptyString => false
  | String c s' => isUpperByte c || hasUpper s'
  end.

Fixpoint mapBytes (f : ascii -> ascii) (s : string) : string :=
  match s with
  | EmptyString => EmptyString
  | String c s' => String (f c) (mapBytes f s')
  end.

(** [strings.ToLower]: the ASCII fast path is the library's own loop; a
    string with a byte [>= 0x80] goes through [Map(unicode.ToLower, s)],
    which is the parameter [unicodeLower]. *)
Definition ToLower (unicodeLower : string -> string) (s : string) : string :=
  if isASCII s then
    if hasUpper s then mapBytes lowerByte s else s
  else unicodeLower s.

End GoStrings.

(** ** The configuration: [type RProxy struct] and [NewRProxy] *)

Record RProxy := mkRProxy {
  listenProto  : string;
  listenAddr   : string;
  backendProto : string;
  backendAddr  : string;
  rootCert     : string;
  serverCert   : string;
  serverKey    : string;
  clientCert   : string;
  clientKey    : string
}.

Definition NewRProxy (unicodeLower : string -> string)
    (listenProto listenAddr backendProto backendAddr
     rootCert serverCert serverKey clientCert clientKey : string) : RProxy :=
  {| listenProto  := GoStrings.ToLower unicodeLower listenProto;
     listenAddr   := GoStrings.ToLower unicodeLower listenAddr;
     backendProto := GoStrings.ToLower unicodeLower backendProto;
     backendAddr  := GoStrings.ToLower unicodeLower backendAddr;
     rootCert     := rootCert;
     serverCert   := serverCert;
     serverKey    := serverKey;
     clientCert   := clientCert;
     clientKey    := clientKey |}.

(** ** TLS data: [crypto/x509] and [crypto/tls] as far as the proxy uses them *)

(** A parsed X.509 certificate, identified by its encoding. *)
Definition Cert := string.

(** [x509.CertPool]: the certificates added to it. *)
Definition CertPool := list Cert.

(** [tls.Certificate]: a chain and the private key that goes with it. *)
Record Certificate := mkCertificate {
  certChain  : list Cert;
  privateKey : string
}.

(** [tls.ClientAuthType] *)
Inductive ClientAuthType :=
| NoClientCert
| RequestClientCert
| RequireAnyClientCert
| VerifyClientCertIfGiven
| RequireAndVerifyClientCert.

(** [tls.Config], with the fields the proxy sets; a field that a literal
    leaves out has Go's zero value ([nil] pool, empty name,
    [NoClientCert]). *)
Record TLSConfig := mkTLSConfig {
  RootCAs      : option CertPool;
  ClientCAs    : option CertPool;
  ClientAuth   : ClientAuthType;
  ServerName   : string;
  Certificates : list Certificate
}.

(** [time.Duration] counts nanoseconds. *)
Definition Duration := Z.
Definition Second : Duration := 1000000000%Z.

(** ** The world outside the process *)

Record World := mkWorld {
  (** [strings.Map(unicode.ToLower, s)] *)
  unicodeLower : string -> string;
  (** [ioutil.ReadFile] *)
  ReadFile : string -> result string;
  (** the certificates [CertPool.AppendCertsFromPEM] finds in a PEM text *)
  certsOfPEM : string -> list Cert;
  (** [tls.LoadX509KeyPair certFile keyFile] *)
  LoadX509KeyPair : string -> string -> result Certificate;
  (** [net.ResolveTCPAddr "tcp" addr], the resolved address as text *)
  ResolveTCPAddr : string -> result string;
  (** [net.ListenTCP] / [tls.Listen]: binding the address *)
  bindAddr : string -> result unit;
  (** does the certificate chain to one of the pool's certificates *)
  chainsTo : CertPool -> Cert -> bool
}.

(** [roots := x509.NewCertPool(); ok := roots.AppendCertsFromPEM(pem)]:
    [ok] reports whether at least one certificate was added. *)
Definition AppendCertsFromPEM (w : World) (pem : string) : bool * CertPool :=
  let cs := certsOfPEM w pem in
  (negb (Nat.eqb (length cs) 0), cs).

(** ** Events and ways to die *)

(** The arguments of a backend dial.  [net.DialTimeout] takes a timeout;
    [tls.Dial] takes none and uses a zero [net.Dialer]. *)
Record DialReq := mkDialReq {
  dNetwork : string;
  dAddr    : string;
  dTimeout : option Duration;
  dTLS     : option TLSConfig
}.

Inductive Side := Front | Back.

Inductive Event :=
| EvReadFile (path : string)
| EvLoadKeyPair (certFile keyFile : string)
| EvResolve (addr : string)
| EvListenTCP (addr : string)
| EvListenTLS (addr : string) (cfg : TLSConfig)
| EvAccepted (conn : nat)
| EvAcceptError (e : string)
| EvLog (msg : string)
| EvGoServe (conn : nat)
| EvDial (req : DialReq)
| EvWrite (to : Side) (chunk : string)
| EvClose (side : Side).

(** An unrecovered [panic] in any goroutine and [log.Fatalf] both end the
    whole process. *)
Inductive Abort :=
| Panic (msg : string)
| Fatal (msg : string).

(** ** Start-up: [Start], [startTCP], [startTLS] up to the accept loop

    The code before the [for] loop runs in the only goroutine there is, so
    it is a function: the events it causes, and either the way it died or
    the listener with which the accept loop is entered. *)

Module Startup.

Definition M (A : Type) : Type := (list Event * (Abort + A))%type.

Definition ret {A} (x : A) : M A := ([], inr x).
Definition abort {A} (a : Abort) : M A := ([], inl a).
Definition emit (e : Event) : M unit := ([e], inr tt).

Definition bind {A B} (m : M A) (f : A -> M B) : M B :=
  match m with
  | (evs, inl a) => (evs, inl a)
  | (evs, inr x) => let '(evs', r) := f x in (evs ++ evs', r)
  end.

(** [x, err := call; if err != nil { panic(err) }] *)
Definition orPanic {A} (r : result A) : M A :=
  match r with
  | Ok x => ret x
  | Err e => abort (Panic e)
  end.

End Startup.

Notation "x <- m ;; k" := (Startup.bind m (fun x => k))
  (at level 100, m at next level, right associativity).
Notation "m ;;; k" := (Startup.bind m (fun _ => k))
  (at level 100, right associativity).

(** What [ln.Accept()] is called on. *)
Record Listener := mkListener {
  lnAddr : string;
  lnTLS  : option TLSConfig
}.

Definition startTCP (w : World) (rp : RProxy) : Startup.M Listener :=
  Startup.emit (EvResolve (listenAddr rp)) ;;;
  lAddr <- Startup.orPanic (ResolveTCPAddr w (listenAddr rp)) ;;
  Startup.emit (EvListenTCP lAddr) ;;;
  _ <- Startup.orPanic (bindAddr w lAddr) ;;
  Startup.ret {| lnAddr := lAddr; lnTLS := None |}.

(** The [tls.Config] literal of [startTLS]. *)
Definition serverConfig (roots : CertPool) (cert : Certificate) : TLSConfig :=
  {| RootCAs      := None;
     ClientCAs    := Some roots;
     ClientAuth   := RequireAndVerifyClientCert;
     ServerName   := "";
     Certificates := [cert] |}.

Definition startTLS (w : World) (rp : RProxy) : Startup.M Listener :=
  Startup.emit (EvReadFile (rootCert rp)) ;;;
  match ReadFile w (rootCert rp) with
  | Err _ => Startup.abort (Panic "failed to load root certificate")
  | Ok rootPEM =>
    let '(ok, roots) := AppendCertsFromPEM w rootPEM in
    if negb ok then Startup.abort (Panic "failed to parse root certificate")
    else
      Startup.emit (EvLoadKeyPair (serverCert rp) (serverKey rp)) ;;;
      match LoadX509KeyPair w (serverCert rp) (serverKey rp) with
      | Err e =>
        Startup.abort (Fatal ("failed to load server tls certificate: " ++ e)%string)
      | Ok cert =>
        let config := serverConfig roots cert in
        Startup.emit (EvListenTLS (listenAddr rp) config) ;;;
        _ <- Startup.orPanic (bindAddr w (listenAddr rp)) ;;
        Startup.ret {| lnAddr := listenAddr rp; lnTLS := Some config |}
      end
  end.

(** [Start]: the [switch] on [rp.listenProto]; the result is the state in
    which the accept loop is entered. *)
Definition Start (w : World) (rp : RProxy) : Startup.M Listener :=
  if String.eqb (listenProto rp) "tcp" then startTCP w rp
  else if String.eqb (listenProto rp) "tls" then startTLS w rp
  else Startup.abort (Panic "listen protocol not supported").

(** ** Connections *)

(** Where a connection stands with its TLS handshake.  [tls.Listen]'s
    [Accept] returns a [tls.Server] connection whose handshake has not run:
    the first [Read] or [Write] runs it.  [tls.Dial] runs it before it
    returns. *)
Inductive Handshake :=
| HSPlain      (* not a TLS connection *)
| HSPending    (* TLS, handshake not yet run *)
| HSDone       (* TLS, handshake succeeded *)
| HSFailed.    (* TLS, handshake failed: every later call fails too *)

Record Conn := mkConn {
  c_hs     : Handshake;
  c_closed : bool;
  (** the chunks written to the connection, oldest first: what its peer
      receives *)
  c_sent   : list string
}.

Definition closeConn (c : Conn) : Conn :=
  {| c_hs := c_hs c; c_closed := true; c_sent := c_sent c |}.

Definition withHS (h : Handshake) (c : Conn) : Conn :=
  {| c_hs := h; c_closed := c_closed c; c_sent := c_sent c |}.

Definition sendOn (chunk : string) (c : Conn) : Conn :=
  {| c_hs := c_hs c; c_closed := c_closed c; c_sent := c_sent c ++ [chunk] |}.

(** What the server side of the handshake asks of the client's certificate,
    by [ClientAuth]. *)
Definition clientAuthOK (w : World) (cfg : TLSConfig) (peer : option Cert) : bool :=
  let pool := default [] (ClientCAs cfg) in
  match ClientAuth cfg with
  | NoClientCert | RequestClientCert => true
  | RequireAnyClientCert =>
    match peer with Some _ => true | None => false end
  | VerifyClientCertIfGiven =>
    match peer with Some c => chainsTo w pool c | None => true end
  | RequireAndVerifyClientCert =>
    match peer with Some c => chainsTo w pool c | None => false end
  end.

(** Run the handshake if it is pending.  [rest] says whether everything
    apart from client authentication went well. *)
Definition doHandshake (w : World) (srv : option TLSConfig)
    (peer : option Cert) (rest : bool) (c : Conn) : Conn :=
  match c_hs c with
  | HSPending =>
    let auth := match srv with
                | Some cfg => clientAuthOK w cfg peer
                | None => true
                end in
    if rest && auth then withHS HSDone c else withHS HSFailed c
  | _ => c
  end.

Definition handshaken (c : Conn) : bool :=
  match c_hs c with
  | HSPlain | HSDone => true
  | HSPending | HSFailed => false
  end.

(** ** One Session: [serve], [serveTCP], [serveTLS]

    A Session has the goroutine started by [go rp.serve(conn)], which after
    the dial copies backend-to-front, and the goroutine started by the
    [go func()] inside [serveTCP] / [serveTLS], which copies
    front-to-backend. *)

(** Where a goroutine stands in [io.Copy(dst, src); backendConn.Close();
    listenConn.Close()]. *)
Inductive CopyPC :=
| CRead                                  (* about to call src.Read *)
| CWrite (chunk : string) (er : bool)    (* read chunk (and er: the Read
                                            also returned an error);
                                            about to call dst.Write *)
| CCloseBack                             (* io.Copy returned *)
| CCloseFront                            (* backendConn.Close() done *)
| CDone.                                 (* listenConn.Close() done *)

(** Where the goroutine running [rp.serve(conn)] stands. *)
Inductive ServePC :=
| PServe                                 (* the switch of serve *)
| PDialTCP                               (* serveTCP, before the dial *)
| PReadRoot                              (* serveTLS, before ReadFile *)
| PLoadPair (roots : CertPool)           (* before LoadX509KeyPair *)
| PDialTLS (config : TLSConfig)          (* before tls.Dial *)
| PDialFailed (e : string)               (* inside if err != nil *)
| PRelay (c : CopyPC)                    (* the go statement is done *)
| PReturned (e : string)                 (* return err *)
| PAborted (a : Abort).                  (* panic or log.Fatalf was called *)

Record Session := mkSession {
  s_pc    : ServePC;
  s_go    : option CopyPC;     (* the goroutine of the go func, once started *)
  s_front : Conn;              (* listenConn *)
  s_back  : option Conn;       (* backendConn, once dialed *)
  s_srv   : option TLSConfig;  (* the listener's config, for the handshake *)
  s_peer  : option Cert        (* the certificate the front peer presents *)
}.

Inductive Who := Serving | Copier.

(** One scheduling decision, with the operating system's answers to the
    call the chosen goroutine is about to make. *)
Record Input := mkInput {
  i_who  : Who;
  i_dial : result unit;   (* outcome of the backend dial *)
  i_data : string;        (* bytes a Read returns *)
  i_rerr : bool;          (* the Read also returns io.EOF or an error *)
  i_wok  : bool;          (* a Write succeeds *)
  i_hs   : bool           (* a pending handshake gets through, client
                             authentication aside *)
}.

Definition getConn (s : Session) (sd : Side) : option Conn :=
  match sd with
  | Front => Some (s_front s)
  | Back => s_back s
  end.

Definition setConn (s : Session) (sd : Side) (c : Conn) : Session :=
  match sd with
  | Front =>
    {| s_pc := s_pc s; s_go := s_go s; s_front := c; s_back := s_back s;
       s_srv := s_srv s; s_peer := s_peer s |}
  | Back =>
    {| s_pc := s_pc s; s_go := s_go s; s_front := s_front s; s_back := Some c;
       s_srv := s_srv s; s_peer := s_peer s |}
  end.

Definition mapConn (f : Conn -> Conn) (sd : Side) (s : Session) : Session :=
  match getConn s sd with
  | Some c => setConn s sd (f c)
  | None => s
  end.

Definition setPC (pc : ServePC) (s : Session) : Session :=
  {| s_pc := pc; s_go := s_go s; s_front := s_front s; s_back := s_back s;
     s_srv := s_srv s; s_peer := s_peer s |}.

Definition setGo (g : option CopyPC) (s : Session) : Session :=
  {| s_pc := s_pc s; s_go := g; s_front := s_front s; s_back := s_back s;
     s_srv := s_srv s; s_peer := s_peer s |}.

Definition isClosed (s : Session) (sd : Side) : bool :=
  match getConn s sd with
  | Some c => c_closed c
  | None => false
  end.

(** One step of [io.Copy(dst, src)] followed by the two [Close] calls.
    [io.Copy] reads; writes what it read if that is not empty; stops on a
    write error, and after the write on a read error or end of stream. *)
Definition copyStep (w : World) (src dst : Side) (pc : CopyPC) (inp : Input)
    (s : Session) : CopyPC * Session * list Event :=
  match pc with
  | CRead =>
    match getConn s src with
    | None => (CCloseBack, s, [])
    | Some c =>
      if c_closed c then (CCloseBack, s, [])
      else
        let c' := doHandshake w (s_srv s) (s_peer s) (i_hs inp) c in
        let s' := setConn s src c' in
        if handshaken c' then
          if String.eqb (i_data inp) "" then
            (if i_rerr inp then CCloseBack else CRead, s', [])
          else (CWrite (i_data inp) (i_rerr inp), s', [])
        else (CCloseBack, s', [])
    end
  | CWrite chunk er =>
    match getConn s dst with
    | None => (CCloseBack, s, [])
    | Some d =>
      if c_closed d then (CCloseBack, s, [])
      else
        let d' := doHandshake w (s_srv s) (s_peer s) (i_hs inp) d in
        if handshaken d' && i_wok inp then
          (if er then CCloseBack else CRead,
           setConn s dst (sendOn chunk d'), [EvWrite dst chunk])
        else (CCloseBack, setConn s dst d', [])
    end
  | CCloseBack => (CCloseFront, mapConn closeConn Back s, [EvClose Back])
  | CCloseFront => (CDone, mapConn closeConn Front s, [EvClose Front])
  | CDone => (CDone, s, [])
  end.

(** The [tls.Config] literal of [serveTLS]. *)
Definition clientConfig (roots : CertPool) (cert : Certificate) : TLSConfig :=
  {| RootCAs      := Some roots;
     ClientCAs    := None;
     ClientAuth   := NoClientCert;
     ServerName   := "testapp-server";
     Certificates := [cert] |}.

(** [net.DialTimeout("tcp", rp.backendAddr, 30*time.Second)] *)
Definition dialTCP (rp : RProxy) : DialReq :=
  {| dNetwork := "tcp"; dAddr := backendAddr rp;
     dTimeout := Some (30 * Second)%Z; dTLS := None |}.

(** [tls.Dial("tcp", rp.backendAddr, &config)] *)
Definition dialTLS (rp : RProxy) (config : TLSConfig) : DialReq :=
  {| dNetwork := "tcp"; dAddr := backendAddr rp;
     dTimeout := None; dTLS := Some config |}.

(** A fresh backend connection; [tls.Dial] has run the handshake. *)
Definition newBackend (tls : bool) : Conn :=
  {| c_hs := if tls then HSDone else HSPlain; c_closed := false; c_sent := [] |}.

(** After a dial: [if err != nil] or the [go func()] and on to [io.Copy]. *)
Definition afterDial (tls : bool) (r : result unit) (s : Session) : Session :=
  match r with
  | Err e => setPC (PDialFailed e) s
  | Ok _ =>
    setPC (PRelay CRead) (setGo (Some CRead) (setConn s Back (newBackend tls)))
  end.

Record StepOut := mkStepOut {
  o_sess   : Session;
  o_events : list Event;
  o_abort  : option Abort
}.

Definition goOn (s : Session) (evs : list Event) : StepOut :=
  {| o_sess := s; o_events := evs; o_abort := None |}.

Definition die (s : Session) (evs : list Event) (a : Abort) : StepOut :=
  {| o_sess := setPC (PAborted a) s; o_events := evs; o_abort := Some a |}.

(** One step of the goroutine running [rp.serve(listenConn)]. *)
Definition serveStep (w : World) (rp : RProxy) (inp : Input) (s : Session)
    : StepOut :=
  match s_pc s with
  | PServe =>
    if String.eqb (backendProto rp) "tcp" then goOn (setPC PDialTCP s) []
    else if String.eqb (backendProto rp) "tls" then goOn (setPC PReadRoot s) []
    else die s [] (Panic "backend protocol not supported")
  | PDialTCP =>
    goOn (afterDial false (i_dial inp) s) [EvDial (dialTCP rp)]
  | PReadRoot =>
    match ReadFile w (rootCert rp) with
    | Err _ =>
      die s [EvReadFile (rootCert rp)] (Fatal "failed to load root certificate")
    | Ok rootPEM =>
      let '(ok, roots) := AppendCertsFromPEM w rootPEM in
      if negb ok then
        die s [EvReadFile (rootCert rp)] (Panic "failed to parse root certificate")
      else goOn (setPC (PLoadPair roots) s) [EvReadFile (rootCert rp)]
    end
  | PLoadPair roots =>
    match LoadX509KeyPair w (clientCert rp) (clientKey rp) with
    | Err _ =>
      die s [EvLoadKeyPair (clientCert rp) (clientKey rp)]
          (Panic "failed to load client tls certificate")
    | Ok cert =>
      goOn (setPC (PDialTLS (clientConfig roots cert)) s)
           [EvLoadKeyPair (clientCert rp) (clientKey rp)]
    end
  | PDialTLS config =>
    goOn (afterDial true (i_dial inp) s) [EvDial (dialTLS rp config)]
  | PDialFailed e =>
    goOn (setPC (PReturned e) (mapConn closeConn Front s)) [EvClose Front]
  | PRelay c =>
    let '(c', s', evs) := copyStep w Back Front c inp s in
    goOn (setPC (PRelay c') s') evs
  | PReturned _ => goOn s []
  | PAborted _ => goOn s []
  end.

(** One step of the goroutine of the [go func()]. *)
Definition copierStep (w : World) (inp : Input) (s : Session) : StepOut :=
  match s_go s with
  | None => goOn s []
  | Some c =>
    let '(c', s', evs) := copyStep w Front Back c inp s in
    goOn (setGo (Some c') s') evs
  end.

Definition sstep (w : World) (rp : RProxy) (inp : Input) (s : Session)
    : StepOut :=
  match i_who inp with
  | Serving => serveStep w rp inp s
  | Copier => copierStep w inp s
  end.

(** The Session [go rp.serve(conn)] starts for a connection accepted from
    the listener. *)
Definition newSession (ln : Listener) (peer : option Cert) : Session :=
  {| s_pc := PServe; s_go := None;
     s_front := {| c_hs := match lnTLS ln with
                           | Some _ => HSPending
                           | None => HSPlain
                           end;
                   c_closed := false; c_sent := [] |};
     s_back := None; s_srv := lnTLS ln; s_peer := peer |}.

(** A Session run on its own under a schedule; it stops when it aborts. *)
Fixpoint srun (w : World) (rp : RProxy) (inps : list Input) (s : Session)
    : StepOut :=
  match inps with
  | [] => goOn s []
  | inp :: rest =>
    let o := sstep w rp inp s in
    match o_abort o with
    | Some a => o
    | None =>
      let o' := srun w rp rest (o_sess o) in
      {| o_sess := o_sess o'; o_events := o_events o ++ o_events o';
         o_abort := o_abort o' |}
    end
  end.

(** ** The process: accept loop and Sessions

    The goroutine of [Start] sits in the [for] loop of [startTCP] /
    [startTLS]; every accepted connection adds a Session.  An event is
    tagged with the goroutine group that caused it: [None] for the accept
    loop, [Some k] for the k-th Session. *)

Record Proc := mkProc {
  p_ln       : option Listener;   (* None: the accept loop was not entered *)
  p_sessions : list Session;
  p_trace    : list (option nat * Event);
  (** who ended the process, and how *)
  p_abort    : option (option nat * Abort)
}.

Inductive PInput :=
| PAccept (r : result (option Cert))   (* the accept loop runs one round;
                                          r is what ln.Accept() returns *)
| PSess (k : nat) (inp : Input).       (* Session k makes a step *)

Definition newline : string := String (ascii_of_nat 10) EmptyString.

Definition tagMain (evs : list Event) : list (option nat * Event) :=
  map (pair None) evs.

Definition tagSess (k : nat) (evs : list Event) : list (option nat * Event) :=
  map (pair (Some k)) evs.

(** One round of [for { conn, err := ln.Accept(); if err != nil
    { log.Printf(...); continue }; go rp.serve(conn) }]. *)
Definition acceptStep (ln : Listener) (r : result (option Cert)) (p : Proc)
    : Proc :=
  match r with
  | Err e =>
    {| p_ln := p_ln p; p_sessions := p_sessions p;
       p_trace := p_trace p ++
         tagMain [EvAcceptError e;
                  EvLog ("accept error (" ++ e ++ ")" ++ newline)%string];
       p_abort := p_abort p |}
  | Ok peer =>
    let k := length (p_sessions p) in
    {| p_ln := p_ln p; p_sessions := p_sessions p ++ [newSession ln peer];
       p_trace := p_trace p ++ tagMain [EvAccepted k; EvGoServe k];
       p_abort := p_abort p |}
  end.

Definition pstep (w : World) (rp : RProxy) (p : Proc) (pi : PInput) : Proc :=
  match p_abort p with
  | Some _ => p
  | None =>
    match pi with
    | PAccept r =>
      match p_ln p with
      | Some ln => acceptStep ln r p
      | None => p
      end
    | PSess k inp =>
      match p_sessions p !! k with
      | None => p
      | Some s =>
        let o := sstep w rp inp s in
        {| p_ln := p_ln p; p_sessions := <[k := o_sess o]> (p_sessions p);
           p_trace := p_trace p ++ tagSess k (o_events o);
           p_abort := pair (Some k) <$> o_abort o |}
      end
    end
  end.

Definition prun (w : World) (rp : RProxy) (pis : list PInput) (p : Proc)
    : Proc :=
  fold_left (pstep w rp) pis p.

(** The state in which the process is once [Start] has run its start-up
    code. *)
Definition boot (w : World) (rp : RProxy) : Proc :=
  match Start w rp with
  | (evs, inl a) =>
    {| p_ln := None; p_sessions := []; p_trace := tagMain evs;
       p_abort := Some (None, a) |}
  | (evs, inr ln) =>
    {| p_ln := Some ln; p_sessions := []; p_trace := tagMain evs;
       p_abort := None |}
  end.

(** The client-side configuration as [serveTLS] puts it together before it
    dials (lines "Load root pem" to "Set config for TLS connections"), when
    none of the three steps fails. *)
Definition clientContext (w : World) (rp : RProxy) : option TLSConfig :=
  match ReadFile w (rootCert rp) with
  | Err _ => None
  | Ok rootPEM =>
    let '(ok, roots) := AppendCertsFromPEM w rootPEM in
    if negb ok then None
    else
      match LoadX509KeyPair w (clientCert rp) (clientKey rp) with
      | Err _ => None
      | Ok cert => Some (clientConfig roots cert)
      end
  end.

Definition isDial (e : Event) : bool :=
  match e with
  | EvDial _ => true
  | _ => false
  end.

Definition isWrite (e : Event) : bool :=
  match e with
  | EvWrite _ _ => true
  | _ => false
  end.

(** What Session [k] did, out of a trace of the process. *)
Fixpoint sessTrace (k : nat) (tr : list (option nat * Event)) : list Event :=
  match tr with
  | [] => []
  | (Some j, e) :: tr' =>
    if Nat.eqb j k then e :: sessTrace k tr' else sessTrace k tr'
  | (None, _) :: tr' => sessTrace k tr'
  end.

(** The whole program under a schedule. *)
Definition run (w : World) (rp : RProxy) (pis : list PInput) : Proc :=
  prun w rp pis (boot w rp).

(** ** Sample worlds and configurations *)

Module Sample.

Definition theRoot : Cert := "ROOT".
Definition goodClient : Cert := "signed-by-ROOT".
Definition strangerCert : Cert := "self-signed".

Definition idCert : Certificate :=
  {| certChain := ["leaf"]; privateKey := "key" |}.

(** All files are there, the root file holds one certificate, every
    address resolves and binds. *)
Definition w0 : World :=
  {| unicodeLower := fun s => s;
     ReadFile := fun _ => Ok "PEM";
     certsOfPEM := fun _ => [theRoot];
     LoadX509KeyPair := fun _ _ => Ok idCert;
     ResolveTCPAddr := fun a => Ok a;
     bindAddr := fun _ => Ok tt;
     chainsTo := fun pool c => String.eqb c goodClient |}.

(** As [w0], but the client certificate pair cannot be loaded. *)
Definition wNoClientPair : World :=
  {| unicodeLower := fun s => s;
     ReadFile := fun _ => Ok "PEM";
     certsOfPEM := fun _ => [theRoot];
     LoadX509KeyPair := fun c _ =>
       if String.eqb c "certs/client_cert.pem" then Err "no such file"
       else Ok idCert;
     ResolveTCPAddr := fun a => Ok a;
     bindAddr := fun _ => Ok tt;
     chainsTo := fun pool c => String.eqb c goodClient |}.

(** As [w0], but the listen address is taken. *)
Definition wBusy : World :=
  {| unicodeLower := fun s => s;
     ReadFile := fun _ => Ok "PEM";
     certsOfPEM := fun _ => [theRoot];
     LoadX509KeyPair := fun _ _ => Ok idCert;
     ResolveTCPAddr := fun a => Ok a;
     bindAddr := fun _ => Err "address already in use";
     chainsTo := fun pool c => String.eqb c goodClient |}.

Definition config (lp bp : string) : RProxy :=
  NewRProxy (unicodeLower w0) lp "127.0.0.1:9000" bp "127.0.0.1:9001"
    "certs/root_cert.pem" "certs/server_cert.pem" "certs/server_key.pem"
    "certs/client_cert.pem" "certs/client_key.pem".

Definition serving : Input :=
  {| i_who := Serving; i_dial := Ok tt; i_data := "ping"; i_rerr := false;
     i_wok := true; i_hs := true |}.

Definition copier : Input :=
  {| i_who := Copier; i_dial := Ok tt; i_data := "ping"; i_rerr := false;
     i_wok := true; i_hs := true |}.

Definition servingEOF : Input :=
  {| i_who := Serving; i_dial := Ok tt; i_data := ""; i_rerr := true;
     i_wok := true; i_hs := true |}.

Definition copierEOF : Input :=
  {| i_who := Copier; i_dial := Ok tt; i_data := ""; i_rerr := true;
     i_wok := true; i_hs := true |}.

Definition servingNoDial : Input :=
  {| i_who := Serving; i_dial := Err "connection refused"; i_data := "";
     i_rerr := false; i_wok := true; i_hs := true |}.

Definition plainListener : Listener :=
  {| lnAddr := "127.0.0.1:9000"; lnTLS := None |}.

(** A connection is accepted, the backend is dialed, "ping" goes to the
    backend, then the backend closes: both goroutines leave their loop
    and return. *)
Definition relaySchedule : list PInput :=
  [PAccept (Ok None); PSess 0 serving; PSess 0 serving;
   PSess 0 copier; PSess 0 copier;
   PSess 0 servingEOF; PSess 0 serving; PSess 0 serving;
   PSess 0 copier; PSess 0 copier; PSess 0 copier].

Definition relayEnd : Session :=
  {| s_pc := PRelay CDone; s_go := Some CDone;
     s_front := {| c_hs := HSPlain; c_closed := true; c_sent := [] |};
     s_back := Some {| c_hs := HSPlain; c_closed := true;
                       c_sent := ["ping"] |};
     s_srv := None; s_peer := None |}.

(** A connection is accepted and the backend refuses the dial. *)
Definition refusedSchedule : list PInput :=
  [PAccept (Ok None); PSess 0 serving; PSess 0 servingNoDial;
   PSess 0 serving].

Definition refusedEnd : Session :=
  {| s_pc := PReturned "connection refused"; s_go := None;
     s_front := {| c_hs := HSPlain; c_closed := true; c_sent := [] |};
     s_back := None; s_srv := None; s_peer := None |}.

(** Two connections are accepted one after the other over a plain
    listener; each Session goes through [serve] and [serveTLS] up to the
    dial. *)
Definition twoSessions : list PInput :=
  [PAccept (Ok None);
   PSess 0 serving; PSess 0 serving; PSess 0 serving; PSess 0 serving;
   PAccept (Ok None);
   PSess 1 serving; PSess 1 serving; PSess 1 serving; PSess 1 serving].

Definition theClientConfig : TLSConfig :=
  {| RootCAs := Some [theRoot]; ClientCAs := None;
     ClientAuth := NoClientCert; ServerName := "testapp-server";
     Certificates := [idCert] |}.

Definition tlsDial : DialReq :=
  {| dNetwork := "tcp"; dAddr := "127.0.0.1:9001"; dTimeout := None;
     dTLS := Some theClientConfig |}.

Definition tcpDial : DialReq :=
  {| dNetwork := "tcp"; dAddr := "127.0.0.1:9001";
     dTimeout := Some 30000000000%Z; dTLS := None |}.

Definition startedPlain : list (option nat * Event) :=
  [(None, EvResolve "127.0.0.1:9000"); (None, EvListenTCP "127.0.0.1:9000")].

Definition acceptErrors : list PInput :=
  [PAccept (Err "too many open files"); PAccept (Err "connection aborted");
   PAccept (Ok None)].

Definition theServerConfig : TLSConfig :=
  {| RootCAs := None; ClientCAs := Some [theRoot];
     ClientAuth := RequireAndVerifyClientCert; ServerName := "";
     Certificates := [idCert] |}.

(** Over an encrypted listener a connection is accepted from a peer
    that will present no certificate ([noCertPeer]) or a certificate
    that does not chain to the root ([strangerPeer]); the Session goes
    through [serve] and the dial of [serveTCP]. *)
Definition noCertPeer : list PInput :=
  [PAccept (Ok None); PSess 0 serving; PSess 0 serving].

Definition strangerPeer : list PInput :=
  [PAccept (Ok (Some strangerCert)); PSess 0 serving; PSess 0 serving].

Definition relaying (peer : option Cert) : Session :=
  {| s_pc := PRelay CRead; s_go := Some CRead;
     s_front := {| c_hs := HSPending; c_closed := false; c_sent := [] |};
     s_back := Some {| c_hs := HSPlain; c_closed := false; c_sent := [] |};
     s_srv := Some theServerConfig; s_peer := peer |}.

(** As [relaySchedule], stopped when the goroutine of [serve] has
      returned and the other one has not yet noticed. *)
Definition halfClosed : list PInput :=
  [PAccept (Ok None); PSess 0 serving; PSess 0 serving;
   PSess 0 servingEOF; PSess 0 serving; PSess 0 serving].

Definition halfClosedSession : Session :=
  {| s_pc := PRelay CDone; s_go := Some CRead;
     s_front := {| c_hs := HSPlain; c_closed := true; c_sent := [] |};
     s_back := Some {| c_hs := HSPlain; c_closed := true; c_sent := [] |};
     s_srv := None; s_peer := None |}.

End Sample.

(** ** Invariants *)

(** What has to be closed at each point of the code after [io.Copy]. *)
Definition copyInv (s : Session) (pc : CopyPC) : Prop :=
  match pc with
  | CCloseFront => isClosed s Back = true
  | CDone => isClosed s Front = true /\ isClosed s Back = true
  | _ => True
  end.

Definition CloseInv (s : Session) : Prop :=
  match s_pc s with
  | PRelay c =>
    is_Some (s_back s) /\ copyInv s c /\
    exists g, s_go s = Some g /\ copyInv s g
  | PReturned _ =>
    isClosed s Front = true /\ s_back s = None /\ s_go s = None
  | _ => s_back s = None /\ s_go s = None
  end.

(** The trace of a Session that is past its dial: over a plain backend the
    dial comes first; over an encrypted one the Session has read the root
    file and loaded the client pair itself, then dialed with the
    configuration made of them.  There is one dial. *)
Definition dialed (w : World) (rp : RProxy) (t : list Event) : Prop :=
  exists rest,
    forallb (fun e => negb (isDial e)) rest = true /\
    ((backendProto rp = "tcp" /\ t = EvDial (dialTCP rp) :: rest) \/
     (backendProto rp = "tls" /\
      exists config,
        clientContext w rp = Some config /\
        t = EvReadFile (rootCert rp)
            :: EvLoadKeyPair (clientCert rp) (clientKey rp)
            :: EvDial (dialTLS rp config) :: rest)).

Definition TraceInv (w : World) (rp : RProxy) (t : list Event) (s : Session)
    : Prop :=
  match s_pc s with
  | PServe => t = []
  | PDialTCP => t = [] /\ backendProto rp = "tcp"
  | PReadRoot => t = [] /\ backendProto rp = "tls"
  | PLoadPair roots =>
    t = [EvReadFile (rootCert rp)] /\ backendProto rp = "tls" /\
    exists rootPEM,
      ReadFile w (rootCert rp) = Ok rootPEM /\
      AppendCertsFromPEM w rootPEM = (true, roots)
  | PDialTLS config =>
    t = [EvReadFile (rootCert rp);
         EvLoadKeyPair (clientCert rp) (clientKey rp)] /\
    backendProto rp = "tls" /\ clientContext w rp = Some config
  | PDialFailed _ | PRelay _ | PReturned _ => dialed w rp t
  | PAborted _ => forallb (fun e => negb (isDial e)) t = true
  end.

Definition SessInv (w : World) (rp : RProxy) (t : list Event) (s : Session)
    : Prop :=
  CloseInv s /\ TraceInv w rp t s.

(** What holds of every state of the process, given a relation [Inv]
    between what a Session has done so far and its state. *)
Record PInv (w : World) (rp : RProxy) (Inv : list Event -> Session -> Prop)
    (p : Proc) : Prop := mkPInv {
  inv_ln : forall ln, p_ln p = Some ln -> snd (Start w rp) = inr ln;
  inv_running : p_abort p = None -> is_Some (p_ln p);
  inv_sess : forall k s,
    p_sessions p !! k = Some s -> Inv (sessTrace k (p_trace p)) s;
  inv_fresh : forall k,
    length (p_sessions p) <= k -> sessTrace k (p_trace p) = [];
  inv_alive : forall k s a,
    p_abort p = None -> p_sessions p !! k = Some s -> s_pc s <> PAborted a;
  inv_accepted : forall k,
    k < length (p_sessions p) -> In (None, EvAccepted k) (p_trace p);
  inv_abort_main : forall a,
    p_abort p = Some (None, a) ->
    snd (Start w rp) = inl a /\ p_sessions p = [];
  inv_abort_sess : forall k a,
    p_abort p = Some (Some k, a) ->
    k < length (p_sessions p) /\ In (None, EvAccepted k) (p_trace p)
}.

(** The transport kinds the two [switch] statements know. *)
Definition supported (proto : string) : bool :=
  String.eqb proto "tcp" || String.eqb proto "tls".

(** A Session that never got past the [switch] of [serve]. *)
Definition UnservedInv (t : list Event) (s : Session) : Prop :=
  t = [] /\ s_back s = None /\ s_go s = None /\
  c_closed (s_front s) = false /\ c_sent (s_front s) = [] /\
  (s_pc s = PServe \/
   s_pc s = PAborted (Panic "backend protocol not supported")).

(** What the accept loop logs for a failed [Accept]:
    [log.Printf("accept error (%v)\n", err)]. *)
Definition acceptErrorLog (e : string) : list (option nat * Event) :=
  tagMain [EvAcceptError e;
           EvLog ("accept error (" ++ e ++ ")" ++ newline)%string].

(** The front peer does not pass the client authentication that the
    listener's configuration asks for. *)
Definition unauthenticated (w : World) (s : Session) : Prop :=
  exists cfg, s_srv s = Some cfg /\ clientAuthOK w cfg (s_peer s) = false.

Definition pendingOrFailed (c : Conn) : Prop :=
  c_hs c = HSPending \/ c_hs c = HSFailed.

(** Nothing has been written to either connection of the Session. *)
Definition silent (s : Session) : Prop :=
  c_sent (s_front s) = [] /\ (forall b, s_back s = Some b -> c_sent b = []).

Definition AuthInv (w : World) (t : list Event) (s : Session) : Prop :=
  unauthenticated w s ->
  pendingOrFailed (s_front s) /\ silent s /\
  (forall ch er, s_go s <> Some (CWrite ch er)) /\
  forallb (fun e => negb (isWrite e)) t = true.

(** Sessions carry the configuration of the listener they come from. *)
Definition FrontInv (w : World) (rp : RProxy) (t : list Event) (s : Session)
    : Prop :=
  (forall ln, snd (Start w rp) = inr ln -> s_srv s = lnTLS ln) /\
  AuthInv w t s.

(** ** The test server: [package main] of src/server/server.go

    A TLS server for trying the proxy by hand: it accepts encrypted
    connections, prints what it reads from each, and writes the lines of
    its standard input to whichever connection takes them first.  The
    goroutines are [main] in its accept loop, [readStdin], and per
    connection [handleConn] (which goes on into [write]) and [read].  The
    two channels are [stdin] (capacity 1024, shared) and, per connection,
    [quit] (capacity 2, on which only [true] is sent). *)

Module TestServer.

Definition appName : string := "testapp".
Definition rootCert : string := "certs/root_cert.pem".
Definition serverCert : string := "certs/server_cert.pem".
Definition serverKey : string := "certs/server_key.pem".
Definition backendAddr : string := "127.0.0.1:23002".

(** [loadServerCert]: the events it causes and what it returns.  An error
    value is its text; [errors.New(msg)] is [msg]. *)
Definition loadServerCert (w : World) (rootCert serverCert serverKey : string)
    : list Event * result TLSConfig :=
  match ReadFile w rootCert with
  | Err e => ([EvReadFile rootCert], Err e)
  | Ok rootPEM =>
    let '(ok, roots) := AppendCertsFromPEM w rootPEM in
    if negb ok then
      ([EvReadFile rootCert], Err "failed to parse root certificate")
    else
      match LoadX509KeyPair w serverCert serverKey with
      | Err e =>
        ([EvReadFile rootCert; EvLoadKeyPair serverCert serverKey], Err e)
      | Ok cert =>
        ([EvReadFile rootCert; EvLoadKeyPair serverCert serverKey],
         Ok {| RootCAs := None;
               ClientCAs := Some roots;
               ClientAuth := RequireAndVerifyClientCert;
               ServerName := "";
               Certificates := [cert] |})
      end
  end.

(** [main] up to its [for] loop.  [log.Fatal("%s", err)] prints its
    operands the way [fmt.Sprint] does: the first one is a string, so no
    space is put between them and the verb is not interpreted. *)
Definition main (w : World) : Startup.M Listener :=
  let '(evs, r) := loadServerCert w rootCert serverCert serverKey in
  (evs, inr tt) ;;;
  match r with
  | Err e => Startup.abort (Fatal ("%s" ++ e)%string)
  | Ok config =>
    Startup.emit (EvListenTLS backendAddr config) ;;;
    match bindAddr w backendAddr with
    | Err e => Startup.abort (Fatal ("error: listen: " ++ e)%string)
    | Ok _ => Startup.ret {| lnAddr := backendAddr; lnTLS := Some config |}
    end
  end.

(** What [conn.Read] can return as its error. *)
Inductive ReadErr :=
| EOF                       (* io.EOF *)
| OtherErr (e : string).    (* anything else *)

(** [readStdin] *)
Inductive ScanPC :=
| SScan                     (* about to call scanner.Scan() *)
| SSend (line : string)     (* about to send scanner.Text() on stdin *)
| SEnd.                     (* Scan returned false *)

(** [read] *)
Inductive ReadPC :=
| RRead                     (* about to call conn.Read *)
| RQuit                     (* got io.EOF; about to send on quit *)
| RDone.                    (* returned *)

(** [handleConn], and [write] inside it *)
Inductive HandlePC :=
| HAssert                   (* the type assertion to tls.Conn *)
| HHandshake                (* about to call tlsConn.Handshake() *)
| HSelect                   (* write: at the select *)
| HWrite (message : string) (* write: about to call conn.Write *)
| HQuit                     (* write: Write failed; about to send on quit *)
| HClose                    (* write returned; the deferred conn.Close() *)
| HDone.                    (* handleConn returned *)

Record TConn := mkTConn {
  h_pc   : HandlePC;
  h_read : option ReadPC;   (* the goroutine of go read(conn, quit) *)
  h_conn : Conn;
  h_peer : option Cert;     (* the certificate the peer presents *)
  h_quit : nat              (* how many values the channel quit holds *)
}.

Definition quitCap : nat := 2.
Definition stdinCap : nat := 1024.
Definition bufLen : nat := 1024.

(** What the operating system and the scheduler answer to one step. *)
Record TEnv := mkTEnv {
  e_hs        : bool;            (* the handshake gets through, client
                                    authentication aside *)
  e_err       : string;          (* the text of the error, if the call
                                    fails *)
  e_quitFirst : bool;            (* select: both cases are ready; take
                                    the first *)
  e_wok       : bool;            (* conn.Write succeeds *)
  e_data      : string;          (* the bytes conn.Read has for us *)
  e_rerr      : option ReadErr   (* the error conn.Read returns *)
}.

Inductive TEvent :=
| TvLine (line : string)                 (* scanner.Text() *)
| TvTaken (k : nat) (message : string)   (* connection k received it from
                                            stdin *)
| TvSent (k : nat) (message : string)    (* conn.Write wrote it *)
| TvPrinted (k : nat) (data : string).   (* fmt.Println printed it *)

Definition setHPC (pc : HandlePC) (c : TConn) : TConn :=
  {| h_pc := pc; h_read := h_read c; h_conn := h_conn c; h_peer := h_peer c;
     h_quit := h_quit c |}.

Definition setRead (r : option ReadPC) (c : TConn) : TConn :=
  {| h_pc := h_pc c; h_read := r; h_conn := h_conn c; h_peer := h_peer c;
     h_quit := h_quit c |}.

Definition setHConn (conn : Conn) (c : TConn) : TConn :=
  {| h_pc := h_pc c; h_read := h_read c; h_conn := conn; h_peer := h_peer c;
     h_quit := h_quit c |}.

Definition setQuit (n : nat) (c : TConn) : TConn :=
  {| h_pc := h_pc c; h_read := h_read c; h_conn := h_conn c;
     h_peer := h_peer c; h_quit := n |}.

(** What a step of a goroutine of connection [k] gives back. *)
Record TOut := mkTOut {
  to_conn  : TConn;
  to_stdin : list string;       (* the channel stdin afterwards *)
  to_log   : list TEvent;
  to_abort : option Abort
}.

Definition tgo (c : TConn) (stdin : list string) (evs : list TEvent) : TOut :=
  {| to_conn := c; to_stdin := stdin; to_log := evs; to_abort := None |}.

Definition tdie (c : TConn) (stdin : list string) (a : Abort) : TOut :=
  {| to_conn := c; to_stdin := stdin; to_log := []; to_abort := Some a |}.

(** One step of [write(conn, quit, stdin)].  A [select] with no ready case
    and a send on a full channel block: the step changes nothing. *)
Definition write (k : nat) (env : TEnv) (stdin : list string) (c : TConn)
    : TOut :=
  match h_pc c with
  | HSelect =>
    let quitReady := (0 <? h_quit c)%nat in
    match stdin with
    | [] =>
      if quitReady then tgo (setHPC HClose (setQuit (h_quit c - 1) c)) stdin []
      else tgo c stdin []
    | message :: rest =>
      if quitReady && e_quitFirst env then
        tgo (setHPC HClose (setQuit (h_quit c - 1) c)) stdin []
      else tgo (setHPC (HWrite message) c) rest [TvTaken k message]
    end
  | HWrite message =>
    if negb (c_closed (h_conn c)) && handshaken (h_conn c) && e_wok env then
      tgo (setHPC HSelect (setHConn (sendOn message (h_conn c)) c)) stdin
          [TvSent k message]
    else tgo (setHPC HQuit c) stdin []
  | HQuit =>
    if (h_quit c <? quitCap)%nat then
      tgo (setHPC HClose (setQuit (S (h_quit c)) c)) stdin []
    else tgo c stdin []
  | _ => tgo c stdin []
  end.

(** One step of [handleConn(conn, stdin)]; [srv] is the listener's
    configuration. *)
Definition handleConn (w : World) (srv : option TLSConfig) (k : nat)
    (env : TEnv) (stdin : list string) (c : TConn) : TOut :=
  match h_pc c with
  | HAssert =>
    match c_hs (h_conn c) with
    | HSPlain => tdie c stdin (Fatal "error: not tls conn")
    | _ => tgo (setHPC HHandshake c) stdin []
    end
  | HHandshake =>
    let conn' := doHandshake w srv (h_peer c) (e_hs env) (h_conn c) in
    if negb (c_closed conn') && handshaken conn' then
      tgo (setHPC HSelect (setRead (Some RRead)
             (setQuit 0 (setHConn conn' c)))) stdin []
    else tdie c stdin (Fatal ("error: handshake: " ++ e_err env)%string)
  | HSelect | HWrite _ | HQuit => write k env stdin c
  | HClose => tgo (setHPC HDone (setHConn (closeConn (h_conn c)) c)) stdin []
  | HDone => tgo c stdin []
  end.

(** The error [conn.Read] returns: on a connection that [handleConn] has
    closed it is an error even if the peer has sent none. *)
Definition readError (env : TEnv) (conn : Conn) : option ReadErr :=
  match e_rerr env with
  | Some e => Some e
  | None =>
    if c_closed conn then Some (OtherErr "use of closed network connection")
    else None
  end.

(** One step of [read(conn, quit)]: [buf] has 1024 bytes, so that is the
    most one [Read] returns. *)
Definition read (k : nat) (env : TEnv) (stdin : list string) (c : TConn)
    : TOut :=
  match h_read c with
  | Some RRead =>
    match readError env (h_conn c) with
    | Some EOF => tgo (setRead (Some RQuit) c) stdin []
    | Some (OtherErr e) => tdie c stdin (Fatal ("error: read: " ++ e)%string)
    | None => tgo c stdin [TvPrinted k (substring 0 bufLen (e_data env))]
    end
  | Some RQuit =>
    if (h_quit c <? quitCap)%nat then
      tgo (setRead (Some RDone) (setQuit (S (h_quit c)) c)) stdin []
    else tgo c stdin []
  | Some RDone | None => tgo c stdin []
  end.

Record TServer := mkTServer {
  t_ln    : option Listener;
  t_conns : list TConn;
  t_scan  : ScanPC;
  t_stdin : list string;      (* the channel stdin, oldest first *)
  t_log   : list TEvent;
  t_abort : option Abort
}.

Inductive TInput :=
| TScan (line : option string)          (* readStdin makes a step; line is
                                           what the scanner has, None when
                                           Scan returns false *)
| TAccept (r : result (option Cert))    (* main makes a round of its loop *)
| THandle (k : nat) (env : TEnv)        (* handleConn / write of k *)
| TRead (k : nat) (env : TEnv).         (* read of k *)

(** One step of [readStdin(stdin)]. *)
Definition readStdin (line : option string) (t : TServer) : TServer :=
  match t_scan t with
  | SScan =>
    match line with
    | Some l =>
      {| t_ln := t_ln t; t_conns := t_conns t; t_scan := SSend l;
         t_stdin := t_stdin t; t_log := t_log t ++ [TvLine l];
         t_abort := t_abort t |}
    | None =>
      {| t_ln := t_ln t; t_conns := t_conns t; t_scan := SEnd;
         t_stdin := t_stdin t; t_log := t_log t; t_abort := t_abort t |}
    end
  | SSend l =>
    if (length (t_stdin t) <? stdinCap)%nat then
      {| t_ln := t_ln t; t_conns := t_conns t; t_scan := SScan;
         t_stdin := t_stdin t ++ [l]; t_log := t_log t;
         t_abort := t_abort t |}
    else t
  | SEnd => t
  end.

Definition newTConn (ln : Listener) (peer : option Cert) : TConn :=
  {| h_pc := HAssert; h_read := None;
     h_conn := {| c_hs := match lnTLS ln with
                          | Some _ => HSPending
                          | None => HSPlain
                          end;
                  c_closed := false; c_sent := [] |};
     h_peer := peer; h_quit := 0 |}.

(** One round of the [for] loop of [main]. *)
Definition acceptRound (ln : Listener) (r : result (option Cert))
    (t : TServer) : TServer :=
  match r with
  | Err e =>
    {| t_ln := t_ln t; t_conns := t_conns t; t_scan := t_scan t;
       t_stdin := t_stdin t; t_log := t_log t;
       t_abort := Some (Fatal ("error: accept: " ++ e)%string) |}
  | Ok peer =>
    {| t_ln := t_ln t; t_conns := t_conns t ++ [newTConn ln peer];
       t_scan := t_scan t; t_stdin := t_stdin t; t_log := t_log t;
       t_abort := t_abort t |}
  end.

Definition applyOut (k : nat) (o : TOut) (t : TServer) : TServer :=
  {| t_ln := t_ln t; t_conns := <[k := to_conn o]> (t_conns t);
     t_scan := t_scan t; t_stdin := to_stdin o;
     t_log := t_log t ++ to_log o; t_abort := to_abort o |}.

Definition tstep (w : World) (t : TServer) (ti : TInput) : TServer :=
  match t_abort t with
  | Some _ => t
  | None =>
    match ti with
    | TScan line => readStdin line t
    | TAccept r =>
      match t_ln t with
      | Some ln => acceptRound ln r t
      | None => t
      end
    | THandle k env =>
      match t_conns t !! k with
      | Some c =>
        applyOut k (handleConn w (t_ln t ≫= lnTLS) k env (t_stdin t) c) t
      | None => t
      end
    | TRead k env =>
      match t_conns t !! k with
      | Some c => applyOut k (read k env (t_stdin t) c) t
      | None => t
      end
    end
  end.

(** The state when [main] has run its start-up code: [readStdin] is
    started just before the loop. *)
Definition tboot (w : World) : TServer :=
  match main w with
  | (_, inl a) =>
    {| t_ln := None; t_conns := []; t_scan := SEnd; t_stdin := [];
       t_log := []; t_abort := Some a |}
  | (_, inr ln) =>
    {| t_ln := Some ln; t_conns := []; t_scan := SScan; t_stdin := [];
       t_log := []; t_abort := None |}
  end.

Definition trun (w : World) (tis : list TInput) : TServer :=
  fold_left (tstep w) tis (tboot w).

(** The lines the scanner has produced, in order. *)
Fixpoint linesOf (log : list TEvent) : list string :=
  match log with
  | [] => []
  | TvLine l :: log' => l :: linesOf log'
  | _ :: log' => linesOf log'
  end.

(** The messages taken from the channel stdin, in the order taken. *)
Fixpoint takenOf (log : list TEvent) : list string :=
  match log with
  | [] => []
  | TvTaken _ m :: log' => m :: takenOf log'
  | _ :: log' => takenOf log'
  end.

(** The messages connection [k] took from the channel. *)
Fixpoint takenBy (k : nat) (log : list TEvent) : list string :=
  match log with
  | [] => []
  | TvTaken j m :: log' =>
    if Nat.eqb j k then m :: takenBy k log' else takenBy k log'
  | _ :: log' => takenBy k log'
  end.

(** What was printed for connection [k]. *)
Fixpoint printedBy (k : nat) (log : list TEvent) : list string :=
  match log with
  | [] => []
  | TvPrinted j d :: log' =>
    if Nat.eqb j k then d :: printedBy k log' else printedBy k log'
  | _ :: log' => printedBy k log'
  end.

(** The line [readStdin] holds while it waits to send. *)
Definition pendingLine (pc : ScanPC) : list string :=
  match pc with
  | SSend l => [l]
  | _ => []
  end.

(** Has the goroutine sent on quit? *)
Definition readSent (r : option ReadPC) : nat :=
  match r with
  | Some RDone => 1
  | _ => 0
  end.

Definition writeReturned (pc : HandlePC) : nat :=
  match pc with
  | HClose | HDone => 1
  | _ => 0
  end.

(** What holds of every connection of the test server. *)
Record ConnInv (c : TConn) : Prop := mkConnInv {
  ci_quit : h_quit c <= readSent (h_read c) + writeReturned (h_pc c);
  ci_quit_eq : match h_pc c with
               | HSelect | HWrite _ | HQuit => h_quit c = readSent (h_read c)
               | _ => True
               end;
  ci_gate : match h_pc c with
            | HAssert =>
              h_read c = None /\ c_sent (h_conn c) = [] /\
              h_quit c = 0 /\
              (c_hs (h_conn c) = HSPending \/ c_hs (h_conn c) = HSPlain)
            | HHandshake =>
              h_read c = None /\ c_sent (h_conn c) = [] /\
              h_quit c = 0 /\ c_hs (h_conn c) = HSPending
            | _ => c_hs (h_conn c) = HSDone /\ h_read c <> None
            end;
  ci_closed : c_closed (h_conn c) = true <-> h_pc c = HDone
}.

(** The message [write] holds between taking it and writing it. *)
Definition inFlight (pc : HandlePC) : list string :=
  match pc with
  | HWrite m => [m]
  | _ => []
  end.

(** What holds of the log and the channel, for connection [k] in state
    [c]: what it has written is what it took, in order, except for a
    message it still holds or one whose [Write] failed, after which it
    takes no more. *)
Definition SentInv (k : nat) (log : list TEvent) (c : TConn) : Prop :=
  match h_pc c with
  | HAssert | HHandshake => takenBy k log = [] /\ printedBy k log = []
  | HSelect => takenBy k log = c_sent (h_conn c)
  | HWrite m => takenBy k log = c_sent (h_conn c) ++ [m]
  | HQuit => exists m, takenBy k log = c_sent (h_conn c) ++ [m]
  | HClose | HDone =>
    takenBy k log = c_sent (h_conn c) \/
    exists m, takenBy k log = c_sent (h_conn c) ++ [m]
  end.

Record TInv (w : World) (t : TServer) : Prop := mkTInv {
  ti_ln : forall ln, t_ln t = Some ln -> snd (main w) = inr ln;
  ti_running : t_abort t = None -> is_Some (t_ln t);
  ti_conn : forall k c, t_conns t !! k = Some c -> ConnInv c;
  ti_sent : forall k c, t_conns t !! k = Some c -> SentInv k (t_log t) c;
  ti_fresh : forall k,
    length (t_conns t) <= k ->
    takenBy k (t_log t) = [] /\ printedBy k (t_log t) = [];
  ti_fifo : linesOf (t_log t)
            = takenOf (t_log t) ++ t_stdin t ++ pendingLine (t_scan t);
  ti_cap : length (t_stdin t) <= stdinCap
}.

(** A world for trying the test server, and a peer with a good
    certificate that sends "hello" and then closes. *)
Definition quiet : TEnv :=
  {| e_hs := true; e_err := "remote error"; e_quitFirst := true;
     e_wok := true; e_data := "hello"; e_rerr := None |}.

Definition atEOF : TEnv :=
  {| e_hs := true; e_err := "remote error"; e_quitFirst := true;
     e_wok := true; e_data := ""; e_rerr := Some EOF |}.

Definition session : list TInput :=
  [TAccept (Ok (Some Sample.goodClient)); TScan (Some "one");
   THandle 0 quiet; THandle 0 quiet; TScan None; TRead 0 quiet;
   THandle 0 quiet; THandle 0 quiet;
   TRead 0 atEOF; TRead 0 atEOF; THandle 0 quiet; THandle 0 quiet].

Definition writeFails : TEnv :=
  {| e_hs := true; e_err := "broken pipe"; e_quitFirst := false;
     e_wok := false; e_data := ""; e_rerr := None |}.

(** A good client connects, a line is typed and taken, its [Write]
    fails, and [handleConn] returns while [read] is still reading. *)
Definition failedWrite : list TInput :=
  [TAccept (Ok (Some Sample.goodClient)); THandle 0 quiet; THandle 0 quiet;
   TScan (Some "one"); TScan None; THandle 0 quiet;
   THandle 0 writeFails; THandle 0 quiet; THandle 0 quiet].

End TestServer.

(** ** Further invariants *)

(** An event of the start-up code. *)
Definition isStartupEvent (e : Event) : bool :=
  match e with
  | EvResolve _ | EvListenTCP _ | EvListenTLS _ _
  | EvReadFile _ | EvLoadKeyPair _ _ => true
  | _ => false
  end.

(** A read of a credential file. *)
Definition isCredentialRead (e : Event) : bool :=
  match e with
  | EvReadFile _ | EvLoadKeyPair _ _ => true
  | _ => false
  end.

(** A Session over a plain backend: it is never inside [serveTLS] and has
    read no credential file. *)
Definition PlainInv (t : list Event) (s : Session) : Prop :=
  forallb (fun e => negb (isCredentialRead e)) t = true /\
  match s_pc s with
  | PReadRoot | PLoadPair _ | PDialTLS _ => False
  | _ => True
  end.

(** Is the goroutine of [serve] still before a successful dial (or dead
    before it)? *)
Definition beforeRelay (pc : ServePC) : bool :=
  match pc with
  | PServe | PDialTCP | PReadRoot | PLoadPair _ | PDialTLS _
  | PAborted _ => true
  | PDialFailed _ | PRelay _ | PReturned _ => false
  end.

(** Until the dial has succeeded or failed nothing was done with the
    accepted connection. *)
Definition PreDialInv (s : Session) : Prop :=
  beforeRelay (s_pc s) = true ->
  s_go s = None /\ s_back s = None /\
  s_front s = {| c_hs := match s_srv s with
                         | Some _ => HSPending
                         | None => HSPlain
                         end;
                 c_closed := false; c_sent := [] |}.

(** Where a goroutine goes from a point of its copy code once both
    connections are closed. *)
Definition afterClose (pc : CopyPC) : CopyPC :=
  match pc with
  | CRead | CWrite _ _ => CCloseBack
  | CCloseBack => CCloseFront
  | CCloseFront | CDone => CDone
  end.

(** * Properties *)

(** ** [strings.ToLower] and [NewRProxy] *)

Lemma mapBytes_lower_no_upper (s : string) :
  GoStrings.hasUpper s = false -> GoStrings.mapBytes GoStrings.lowerByte s = s.
Proof.
  induction s as [|c s IH]; simpl; [reflexivity|].
  intros H. apply orb_false_iff in H as [Hc Hs].
  rewrite (IH Hs). unfold GoStrings.lowerByte. rewrite Hc. reflexivity.
Qed.

(** On a string of ASCII bytes [ToLower] replaces every upper-case letter,
    whatever the Unicode tables say. *)
Lemma ToLower_ascii (ul : string -> string) (s : string) :
  GoStrings.isASCII s = true ->
  GoStrings.ToLower ul s = GoStrings.mapBytes GoStrings.lowerByte s.
Proof.
  intros H. unfold GoStrings.ToLower. rewrite H.
  destruct (GoStrings.hasUpper s) eqn:E; [reflexivity|].
  symmetry. apply mapBytes_lower_no_upper. exact E.
Qed.

Lemma Start_tcp (w : World) (rp : RProxy) :
  listenProto rp = "tcp" -> Start w rp = startTCP w rp.
Proof. intros H. unfold Start. rewrite H. reflexivity. Qed.

Lemma Start_tls (w : World) (rp : RProxy) :
  listenProto rp = "tls" -> Start w rp = startTLS w rp.
Proof. intros H. unfold Start. rewrite H. reflexivity. Qed.

Lemma serve_tcp (w : World) (rp : RProxy) (inp : Input) (s : Session) :
  backendProto rp = "tcp" -> s_pc s = PServe ->
  serveStep w rp inp s = goOn (setPC PDialTCP s) [].
Proof. intros H Hpc. unfold serveStep. rewrite Hpc, H. reflexivity. Qed.

Lemma serve_tls (w : World) (rp : RProxy) (inp : Input) (s : Session) :
  backendProto rp = "tls" -> s_pc s = PServe ->
  serveStep w rp inp s = goOn (setPC PReadRoot s) [].
Proof. intros H Hpc. unfold serveStep. rewrite Hpc, H. reflexivity. Qed.

(** C10.  [NewRProxy] stores the two protocols and the two addresses
    through [strings.ToLower] and the five credential paths as given.  So
    the [switch] of [Start] and of [serve] does not see the case of ASCII
    letters: a listen protocol that reads "tcp" (or "tls") once its
    upper-case letters are lowered starts [startTCP] (or [startTLS]), a
    backend protocol that does sends [serve] to [serveTCP] (or
    [serveTLS]); "TCP" and "Tls" are such spellings. *)
Theorem C10_NewRProxy_lowercases_protocols_and_addresses :
  forall (w : World) (lp la bp ba rc sc sk cc ck : string),
    let rp := NewRProxy (unicodeLower w) lp la bp ba rc sc sk cc ck in
    (listenProto rp = GoStrings.ToLower (unicodeLower w) lp /\
     listenAddr rp = GoStrings.ToLower (unicodeLower w) la /\
     backendProto rp = GoStrings.ToLower (unicodeLower w) bp /\
     backendAddr rp = GoStrings.ToLower (unicodeLower w) ba) /\
    (rootCert rp = rc /\ serverCert rp = sc /\ serverKey rp = sk /\
     clientCert rp = cc /\ clientKey rp = ck) /\
    (GoStrings.isASCII lp = true ->
     (GoStrings.mapBytes GoStrings.lowerByte lp = "tcp" ->
      Start w rp = startTCP w rp) /\
     (GoStrings.mapBytes GoStrings.lowerByte lp = "tls" ->
      Start w rp = startTLS w rp)) /\
    (GoStrings.isASCII bp = true ->
     forall inp s, s_pc s = PServe ->
     (GoStrings.mapBytes GoStrings.lowerByte bp = "tcp" ->
      serveStep w rp inp s = goOn (setPC PDialTCP s) []) /\
     (GoStrings.mapBytes GoStrings.lowerByte bp = "tls" ->
      serveStep w rp inp s = goOn (setPC PReadRoot s) [])) /\
    GoStrings.ToLower (unicodeLower w) "TCP" = "tcp" /\
    GoStrings.ToLower (unicodeLower w) "Tls" = "tls".
Proof.
  intros w lp la bp ba rc sc sk cc ck rp.
  split; [repeat split|]. split; [repeat split|].
  split; [|split; [|split; reflexivity]].
  - intros Ha. split; intros Hl.
    + apply Start_tcp. simpl. rewrite (ToLower_ascii _ _ Ha). exact Hl.
    + apply Start_tls. simpl. rewrite (ToLower_ascii _ _ Ha). exact Hl.
  - intros Ha inp s Hpc. split; intros Hl.
    + apply serve_tcp; [|exact Hpc]. simpl.
      rewrite (ToLower_ascii _ _ Ha). exact Hl.
    + apply serve_tls; [|exact Hpc]. simpl.
      rewrite (ToLower_ascii _ _ Ha). exact Hl.
Qed.

(** C10 at "TCP" and "Tls". *)
Lemma C10_witness :
  Start Sample.w0 (Sample.config "TCP" "Tls")
    = startTCP Sample.w0 (Sample.config "TCP" "Tls") /\
  serveStep Sample.w0 (Sample.config "TCP" "Tls") Sample.serving
      (newSession {| lnAddr := "127.0.0.1:9000"; lnTLS := None |} None)
    = goOn (setPC PReadRoot
             (newSession {| lnAddr := "127.0.0.1:9000"; lnTLS := None |} None))
           [].
Proof.
  pose proof (C10_NewRProxy_lowercases_protocols_and_addresses Sample.w0
                "TCP" "127.0.0.1:9000" "Tls" "127.0.0.1:9001"
                "certs/root_cert.pem" "certs/server_cert.pem"
                "certs/server_key.pem" "certs/client_cert.pem"
                "certs/client_key.pem") as H.
  destruct H as (_ & _ & HL & HB & _).
  split.
  - apply HL; reflexivity.
  - apply HB; reflexivity.
Defined.

(** ** Traces and runs *)

Lemma sessTrace_app (k : nat) (a b : list (option nat * Event)) :
  sessTrace k (a ++ b) = sessTrace k a ++ sessTrace k b.
Proof.
  induction a as [|[[j|] e] a IH]; simpl; [reflexivity| |exact IH].
  destruct (Nat.eqb j k); simpl; rewrite IH; reflexivity.
Qed.

Lemma sessTrace_tagMain (k : nat) (evs : list Event) :
  sessTrace k (tagMain evs) = [].
Proof. induction evs as [|e evs IH]; simpl; [reflexivity|exact IH]. Qed.

Lemma sessTrace_tagSess_eq (k : nat) (evs : list Event) :
  sessTrace k (tagSess k evs) = evs.
Proof.
  induction evs as [|e evs IH]; simpl; [reflexivity|].
  rewrite Nat.eqb_refl, IH. reflexivity.
Qed.

Lemma sessTrace_tagSess_ne (j k : nat) (evs : list Event) :
  j <> k -> sessTrace k (tagSess j evs) = [].
Proof.
  intros Hne. induction evs as [|e evs IH]; simpl; [reflexivity|].
  destruct (Nat.eqb_spec j k); [contradiction|exact IH].
Qed.

Lemma sessTrace_In (k : nat) (e : Event) (tr : list (option nat * Event)) :
  In e (sessTrace k tr) <-> In (Some k, e) tr.
Proof.
  induction tr as [|[[j|] e'] tr IH]; simpl.
  - tauto.
  - destruct (Nat.eqb_spec j k) as [->|Hne]; simpl; rewrite IH.
    + split; intros [H|H]; auto; left; congruence.
    + split; [auto|]. intros [H|H]; [|exact H]. congruence.
  - rewrite IH. split; [auto|]. intros [H|H]; [congruence|exact H].
Qed.

Lemma prun_app (w : World) (rp : RProxy) (a b : list PInput) (p : Proc) :
  prun w rp (a ++ b) p = prun w rp b (prun w rp a p).
Proof. unfold prun. apply fold_left_app. Qed.

(** A process that has ended makes no step. *)
Lemma prun_aborted (w : World) (rp : RProxy) (pis : list PInput) (p : Proc) :
  p_abort p <> None -> prun w rp pis p = p.
Proof.
  intros H. induction pis as [|pi pis IH]; simpl; [reflexivity|].
  unfold prun in *. simpl.
  assert (E : pstep w rp p pi = p).
  { unfold pstep. destruct (p_abort p); [reflexivity|congruence]. }
  rewrite E. exact IH.
Qed.

(** ** What one step of a copy loop does to a Session *)

Ltac break_if :=
  match goal with
  | |- context [if ?b then _ else _] => destruct b eqn:?
  | |- context [match ?x with _ => _ end] => destruct x eqn:?
  end.

Lemma isClosed_setConn_same (s : Session) (sd : Side) (c : Conn) :
  isClosed (setConn s sd c) sd = c_closed c.
Proof. destruct sd; reflexivity. Qed.

Lemma isClosed_mapConn_close (s : Session) (sd : Side) :
  is_Some (getConn s sd) -> isClosed (mapConn closeConn sd s) sd = true.
Proof.
  intros [c Hc]. unfold mapConn. rewrite Hc.
  rewrite isClosed_setConn_same. reflexivity.
Qed.

Lemma doHandshake_closed (w : World) srv peer rest (c : Conn) :
  c_closed (doHandshake w srv peer rest c) = c_closed c.
Proof. unfold doHandshake. repeat break_if; reflexivity. Qed.

Lemma doHandshake_sent (w : World) srv peer rest (c : Conn) :
  c_sent (doHandshake w srv peer rest c) = c_sent c.
Proof. unfold doHandshake. repeat break_if; reflexivity. Qed.

(** The pieces of a Session a copy step leaves alone. *)
Lemma copyStep_frame (w : World) (src dst : Side) (pc : CopyPC) (inp : Input)
    (s : Session) :
  let '(_, s', _) := copyStep w src dst pc inp s in
  s_pc s' = s_pc s /\ s_go s' = s_go s /\ s_srv s' = s_srv s /\
  s_peer s' = s_peer s /\ (is_Some (s_back s) -> is_Some (s_back s')) /\
  (s_back s = None -> dst = Front -> src = Back -> s_back s' = None).
Proof.
  destruct s as [p g f [b|] srv peer]; destruct pc, src, dst; simpl;
    repeat break_if; simpl; repeat split; eauto;
    try discriminate; try (intros [? ?]; discriminate).
Qed.

(** A closed connection stays closed. *)
Lemma copyStep_closed_mono (w : World) (src dst : Side) (pc : CopyPC)
    (inp : Input) (s : Session) (sd : Side) :
  isClosed s sd = true ->
  isClosed (snd (fst (copyStep w src dst pc inp s))) sd = true.
Proof.
  destruct s as [p g [hf cf sf] [[hb cb sb]|] srv peer];
    destruct pc, src, dst, sd; unfold isClosed; simpl; intros H;
    try discriminate; try (rewrite H; simpl); try reflexivity;
    repeat (break_if; simpl in *; try rewrite doHandshake_closed;
            try assumption; try reflexivity; try congruence).
Qed.

Lemma copyInv_mono (w : World) (src dst : Side) (pc : CopyPC) (inp : Input)
    (s : Session) (g : CopyPC) :
  copyInv s g -> copyInv (snd (fst (copyStep w src dst pc inp s))) g.
Proof.
  destruct g; simpl; auto.
  - apply copyStep_closed_mono.
  - intros [H1 H2]. split; apply copyStep_closed_mono; assumption.
Qed.

(** One copy step keeps [copyInv] for the goroutine that makes it: the code
    after [io.Copy] closes the backend connection, then the front one, and
    only then returns. *)
Lemma copyStep_copyInv (w : World) (src dst : Side) (pc : CopyPC)
    (inp : Input) (s : Session) :
  is_Some (s_back s) -> copyInv s pc ->
  copyInv (snd (fst (copyStep w src dst pc inp s)))
          (fst (fst (copyStep w src dst pc inp s))).
Proof.
  intros [b Hb] HI. destruct pc.
  - unfold copyStep. repeat break_if; simpl; exact I.
  - unfold copyStep. repeat break_if; simpl; exact I.
  - simpl. apply isClosed_mapConn_close. simpl. eauto.
  - simpl. simpl in HI. split.
    + apply isClosed_mapConn_close. simpl. eauto.
    + unfold mapConn, isClosed in *. simpl in *. exact HI.
  - simpl. exact HI.
Qed.

(** A goroutine gets to [PAborted] only by a step that ends the process. *)
Lemma sstep_alive (w : World) (rp : RProxy) (inp : Input) (s : Session) :
  o_abort (sstep w rp inp s) = None ->
  (forall a, s_pc s <> PAborted a) ->
  forall a, s_pc (o_sess (sstep w rp inp s)) <> PAborted a.
Proof.
  intros Hab Hpc a. unfold sstep in *. destruct (i_who inp).
  - unfold serveStep in *.
    destruct (s_pc s) as [| | |roots|cfg|e|c|e|a'] eqn:E.
    + destruct (String.eqb (backendProto rp) "tcp"); [discriminate|].
      destruct (String.eqb (backendProto rp) "tls"); discriminate.
    + simpl. destruct (i_dial inp); discriminate.
    + destruct (ReadFile w (rootCert rp)) as [pem|]; [|discriminate].
      destruct (AppendCertsFromPEM w pem) as [ok roots].
      destruct ok; discriminate.
    + destruct (LoadX509KeyPair w (clientCert rp) (clientKey rp));
        discriminate.
    + simpl. destruct (i_dial inp); discriminate.
    + discriminate.
    + destruct (copyStep w Back Front c inp s) as [[c' s'] evs]. discriminate.
    + simpl. rewrite E. discriminate.
    + exfalso. exact (Hpc a' eq_refl).
  - unfold copierStep in *. destruct (s_go s) as [g|]; [|apply Hpc].
    pose proof (copyStep_frame w Front Back g inp s) as HF.
    destruct (copyStep w Front Back g inp s) as [[g' s'] evs].
    destruct HF as (HFp & _). simpl. rewrite HFp. apply Hpc.
Qed.

(** ** Lifting an invariant of Sessions to every run of the process

    [Inv t s] relates what a Session has done so far ([t]) to its state.
    If it holds of a Session at birth and is kept by every step of a
    Session, it holds of all Sessions in all states the process reaches.
    Along the way: the accept loop never ends the process, and whoever ends
    it was accepted before. *)

Section RunInvariant.

Variable w : World.
Variable rp : RProxy.
Variable Inv : list Event -> Session -> Prop.

Hypothesis Inv_init : forall ln peer,
  snd (Start w rp) = inr ln -> Inv [] (newSession ln peer).

Hypothesis Inv_step : forall t s inp,
  Inv t s ->
  Inv (t ++ o_events (sstep w rp inp s)) (o_sess (sstep w rp inp s)).

Lemma PInv_boot : PInv w rp Inv (boot w rp).
Proof.
  unfold boot. destruct (Start w rp) as [evs [a|ln]] eqn:E; simpl.
  - constructor; simpl.
    + discriminate.
    + discriminate.
    + intros k s Hk. rewrite lookup_nil in Hk. discriminate.
    + intros. apply sessTrace_tagMain.
    + discriminate.
    + intros. lia.
    + intros a' Ha. injection Ha as <-. rewrite E. split; reflexivity.
    + discriminate.
  - constructor; simpl.
    + intros ln' Hln. injection Hln as <-. rewrite E. reflexivity.
    + eauto.
    + intros k s Hk. rewrite lookup_nil in Hk. discriminate.
    + intros. apply sessTrace_tagMain.
    + intros k s a _ Hk. rewrite lookup_nil in Hk. discriminate.
    + intros. lia.
    + discriminate.
    + discriminate.
Qed.

Lemma PInv_accept (ln : Listener) (r : result (option Cert)) (p : Proc) :
  p_abort p = None -> p_ln p = Some ln -> PInv w rp Inv p -> PInv w rp Inv (acceptStep ln r p).
Proof.
  intros Hab Hln HI. destruct r as [peer|e]; simpl.
  - constructor; simpl.
    + apply (inv_ln _ _ _ _ HI).
    + rewrite Hln. eauto.
    + intros k s Hk. rewrite sessTrace_app. simpl. rewrite app_nil_r.
      destruct (decide (k < length (p_sessions p))) as [Hlt|Hge].
      * rewrite lookup_app_l in Hk by exact Hlt. apply (inv_sess _ _ _ _ HI), Hk.
      * rewrite lookup_app_r in Hk by lia.
        rewrite (inv_fresh _ _ _ _ HI) by lia.
        destruct (k - length (p_sessions p)) as [|n] eqn:En;
          simpl in Hk; [|discriminate].
        injection Hk as <-. apply Inv_init, (inv_ln _ _ _ _ HI), Hln.
    + intros k Hk. rewrite length_app in Hk. simpl in Hk.
      rewrite sessTrace_app. simpl. rewrite app_nil_r.
      apply (inv_fresh _ _ _ _ HI). lia.
    + intros k s a _ Hk.
      destruct (decide (k < length (p_sessions p))) as [Hlt|Hge].
      * rewrite lookup_app_l in Hk by exact Hlt.
        apply (inv_alive _ _ _ _ HI k s a Hab Hk).
      * rewrite lookup_app_r in Hk by lia.
        destruct (k - length (p_sessions p)) as [|n];
          simpl in Hk; [|discriminate].
        injection Hk as <-. discriminate.
    + intros k Hk. rewrite length_app in Hk. simpl in Hk.
      apply in_or_app.
      destruct (decide (k < length (p_sessions p))) as [Hlt|Hge].
      * left. apply (inv_accepted _ _ _ _ HI), Hlt.
      * right. simpl. left. f_equal. f_equal. lia.
    + intros a Ha. congruence.
    + intros k a Ha. congruence.
  - constructor; simpl.
    + apply (inv_ln _ _ _ _ HI).
    + rewrite Hln. eauto.
    + intros k s Hk. rewrite sessTrace_app. simpl. rewrite app_nil_r.
      apply (inv_sess _ _ _ _ HI), Hk.
    + intros k Hk. rewrite sessTrace_app. simpl. rewrite app_nil_r.
      apply (inv_fresh _ _ _ _ HI), Hk.
    + intros k s a _ Hk. apply (inv_alive _ _ _ _ HI k s a Hab Hk).
    + intros k Hk. apply in_or_app. left. apply (inv_accepted _ _ _ _ HI), Hk.
    + intros a Ha. congruence.
    + intros k a Ha. congruence.
Qed.

Lemma PInv_step (pi : PInput) (p : Proc) : PInv w rp Inv p -> PInv w rp Inv (pstep w rp p pi).
Proof.
  intros HI. unfold pstep.
  destruct (p_abort p) as [ab|] eqn:Hab; [exact HI|].
  destruct pi as [r|j inp].
  - destruct (p_ln p) as [ln|] eqn:Hln; [|exact HI].
    apply PInv_accept; assumption.
  - destruct (p_sessions p !! j) as [s|] eqn:Hj; [|exact HI].
    assert (Hlt : j < length (p_sessions p)).
    { apply lookup_lt_Some in Hj. exact Hj. }
    constructor; simpl.
    + apply (inv_ln _ _ _ _ HI).
    + intros _. apply (inv_running _ _ _ _ HI), Hab.
    + intros k s' Hk. rewrite sessTrace_app.
      destruct (decide (j = k)) as [->|Hne].
      * rewrite list_lookup_insert_eq in Hk by exact Hlt.
        injection Hk as <-. rewrite sessTrace_tagSess_eq.
        apply Inv_step, (inv_sess _ _ _ _ HI), Hj.
      * rewrite list_lookup_insert_ne in Hk by exact Hne.
        rewrite sessTrace_tagSess_ne by exact Hne. rewrite app_nil_r.
        apply (inv_sess _ _ _ _ HI), Hk.
    + intros k Hk. rewrite length_insert in Hk. rewrite sessTrace_app.
      rewrite sessTrace_tagSess_ne by lia. rewrite app_nil_r.
      apply (inv_fresh _ _ _ _ HI), Hk.
    + intros k s' a Ha Hk.
      destruct (decide (j = k)) as [->|Hne].
      * rewrite list_lookup_insert_eq in Hk by exact Hlt.
        injection Hk as <-. apply sstep_alive.
        -- destruct (o_abort (sstep w rp inp s)); [discriminate|reflexivity].
        -- intros a'. apply (inv_alive _ _ _ _ HI k s a' Hab Hj).
      * rewrite list_lookup_insert_ne in Hk by exact Hne.
        apply (inv_alive _ _ _ _ HI k s' a Hab Hk).
    + intros k Hk. rewrite length_insert in Hk.
      apply in_or_app. left. apply (inv_accepted _ _ _ _ HI), Hk.
    + intros a Ha. destruct (o_abort (sstep w rp inp s)); discriminate.
    + intros k a Ha.
      destruct (o_abort (sstep w rp inp s)) as [a'|]; [|discriminate].
      simpl in Ha. injection Ha as <- <-.
      split.
      * rewrite length_insert. exact Hlt.
      * apply in_or_app. left. apply (inv_accepted _ _ _ _ HI), Hlt.
Qed.

Lemma PInv_prun (pis : list PInput) (p : Proc) :
  PInv w rp Inv p -> PInv w rp Inv (prun w rp pis p).
Proof.
  revert p. induction pis as [|pi pis IH]; intros p HI; [exact HI|].
  unfold prun. simpl. apply IH, PInv_step, HI.
Qed.

Lemma PInv_run (pis : list PInput) : PInv w rp Inv (run w rp pis).
Proof. apply PInv_prun, PInv_boot. Qed.

(** The invariant, for every Session of every reachable state. *)
Lemma run_sessions_inv (pis : list PInput) (k : nat) (s : Session) :
  p_sessions (run w rp pis) !! k = Some s ->
  Inv (sessTrace k (p_trace (run w rp pis))) s.
Proof. apply (inv_sess _ _ _ _ (PInv_run pis)). Qed.

End RunInvariant.

(** ** Closing of connections (the Relay's termination rule and the dial
       failure path) *)

Lemma CloseInv_init (ln : Listener) (peer : option Cert) :
  CloseInv (newSession ln peer).
Proof. split; reflexivity. Qed.

Lemma CloseInv_afterDial (tls : bool) (r : result unit) (s : Session) :
  s_back s = None -> s_go s = None -> CloseInv (afterDial tls r s).
Proof.
  intros Hb Hg. destruct r as [[]|e]; simpl.
  - split; [eauto|]. split; [exact I|]. exists CRead. split; [reflexivity|exact I].
  - split; assumption.
Qed.

Lemma CloseInv_step (w : World) (rp : RProxy) (inp : Input) (s : Session) :
  CloseInv s -> CloseInv (o_sess (sstep w rp inp s)).
Proof.
  intros HI. unfold sstep. destruct (i_who inp).
  - unfold serveStep. unfold CloseInv in HI.
    destruct (s_pc s) as [| | |roots|cfg|e|c|e|a] eqn:Hpc.
    + repeat break_if; unfold CloseInv; simpl; try rewrite Hpc; exact HI.
    + destruct HI. apply CloseInv_afterDial; assumption.
    + repeat break_if; unfold CloseInv; simpl; try rewrite Hpc; exact HI.
    + repeat break_if; unfold CloseInv; simpl; try rewrite Hpc; exact HI.
    + destruct HI. apply CloseInv_afterDial; assumption.
    + destruct HI as [Hb Hg]. simpl. unfold CloseInv. simpl.
      split; [reflexivity|]. split; assumption.
    + destruct HI as (Hb & Hc & g & Hg & Hgi).
      pose proof (copyStep_frame w Back Front c inp s) as HF.
      pose proof (copyStep_copyInv w Back Front c inp s Hb Hc) as HC.
      pose proof (copyInv_mono w Back Front c inp s g Hgi) as HM.
      destruct (copyStep w Back Front c inp s) as [[c' s'] evs].
      simpl in *. destruct HF as (_ & HFg & _ & _ & HFb & _).
      unfold CloseInv. simpl. split; [auto|]. split.
      * destruct c'; simpl in *; auto.
      * exists g. split; [congruence|]. destruct g; simpl in *; auto.
    + simpl. unfold CloseInv. rewrite Hpc. exact HI.
    + simpl. unfold CloseInv. rewrite Hpc. exact HI.
  - unfold copierStep. destruct (s_go s) as [g|] eqn:Hg; [|exact HI].
    unfold CloseInv in HI.
    destruct (s_pc s) as [| | |roots|cfg|e|c|e|a] eqn:Hpc;
      try (exfalso; clear - HI Hg; intuition congruence).
    destruct HI as (Hb & Hc & g' & Hg' & Hgi).
    assert (g' = g) as -> by congruence.
    pose proof (copyStep_frame w Front Back g inp s) as HF.
    pose proof (copyStep_copyInv w Front Back g inp s Hb Hgi) as HC.
    pose proof (copyInv_mono w Front Back g inp s c Hc) as HM.
    destruct (copyStep w Front Back g inp s) as [[g1 s'] evs].
    simpl in *. destruct HF as (HFp & _ & _ & _ & HFb & _).
    unfold CloseInv. simpl. rewrite HFp, Hpc. split; [auto|]. split.
    + destruct c; simpl in *; auto.
    + exists g1. split; [reflexivity|]. destruct g1; simpl in *; auto.
Qed.

(** C1.  In every state the proxy reaches, under every schedule and every
    behaviour of the network: a goroutine of a Relay that has returned from
    its copy loop and from the function ([serveTCP] / [serveTLS] after
    [io.Copy], or the [go func()]) has left both the front and the backend
    connection closed.  The way out of the loop has no branch: the step
    after [io.Copy] closes the backend connection, the next one the front
    connection, and the loop itself never jumps past them. *)
Theorem C1_relay_exit_closes_both_connections :
  forall (w : World) (rp : RProxy) (pis : list PInput) (k : nat) (s : Session),
    p_sessions (run w rp pis) !! k = Some s ->
    (s_pc s = PRelay CDone ->
     isClosed s Front = true /\ isClosed s Back = true) /\
    (s_go s = Some CDone ->
     isClosed s Front = true /\ isClosed s Back = true) /\
    (forall src dst inp,
       is_Some (s_back s) ->
       (let '(pc', s', evs) := copyStep w src dst CCloseBack inp s in
        pc' = CCloseFront /\ isClosed s' Back = true /\ evs = [EvClose Back]) /\
       (let '(pc', s', evs) := copyStep w src dst CCloseFront inp s in
        pc' = CDone /\ isClosed s' Front = true /\ evs = [EvClose Front]) /\
       (forall pc, pc = CRead \/ (exists ch er, pc = CWrite ch er) ->
        let pc' := fst (fst (copyStep w src dst pc inp s)) in
        pc' = CRead \/ (exists ch er, pc' = CWrite ch er) \/ pc' = CCloseBack)).
Proof.
  intros w rp pis k s Hk.
  pose proof (run_sessions_inv w rp (fun _ s => CloseInv s)
                (fun ln peer _ => CloseInv_init ln peer)
                (fun t s inp H => CloseInv_step w rp inp s H) pis k s Hk) as HI.
  simpl in HI. unfold CloseInv in HI. split; [|split].
  - intros Hpc. rewrite Hpc in HI. destruct HI as (_ & HC & _). exact HC.
  - intros Hg. destruct (s_pc s);
      try (exfalso; clear - HI Hg; intuition congruence).
    destruct HI as (_ & _ & g & Hg' & HC).
    assert (g = CDone) as -> by congruence. exact HC.
  - intros src dst inp Hb. split; [|split].
    + simpl. split; [reflexivity|]. split; [|reflexivity].
      apply isClosed_mapConn_close. exact Hb.
    + simpl. split; [reflexivity|]. split; [|reflexivity].
      apply isClosed_mapConn_close. simpl. eauto.
    + intros pc [->|(ch & er & ->)]; unfold copyStep;
        repeat break_if; simpl;
        first [ left; reflexivity
              | right; left; do 2 eexists; reflexivity
              | right; right; reflexivity ].
Qed.

(** C1 on a run in which the backend closes first. *)
Lemma C1_witness :
  p_sessions (run Sample.w0 (Sample.config "tcp" "tcp") Sample.relaySchedule)
    !! 0 = Some Sample.relayEnd /\
  s_pc Sample.relayEnd = PRelay CDone /\
  isClosed Sample.relayEnd Front = true /\
  isClosed Sample.relayEnd Back = true.
Proof.
  assert (H : p_sessions (run Sample.w0 (Sample.config "tcp" "tcp")
                            Sample.relaySchedule) !! 0
              = Some Sample.relayEnd) by reflexivity.
  split; [exact H|]. split; [reflexivity|].
  destruct (C1_relay_exit_closes_both_connections _ _ _ _ _ H) as [Hd _].
  apply Hd. reflexivity.
Defined.

(** C2.  For every Session of every state the proxy reaches: a failed dial,
    plain or encrypted, takes [serveTCP] / [serveTLS] into the
    [if err != nil] branch with no backend connection and no second
    goroutine; there the Session can only close the front connection and
    return the error; and a Session that has returned an error has its
    front connection closed. *)
Theorem C2_dial_failure_closes_front_connection :
  forall (w : World) (rp : RProxy) (pis : list PInput) (k : nat) (s : Session),
    p_sessions (run w rp pis) !! k = Some s ->
    (forall inp e,
       i_who inp = Serving ->
       (s_pc s = PDialTCP \/ exists config, s_pc s = PDialTLS config) ->
       i_dial inp = Err e ->
       let o := sstep w rp inp s in
       o_abort o = None /\ s_pc (o_sess o) = PDialFailed e /\
       s_back (o_sess o) = None /\ s_go (o_sess o) = None) /\
    (forall inp e,
       s_pc s = PDialFailed e ->
       let o := sstep w rp inp s in
       o_abort o = None /\
       match i_who inp with
       | Serving =>
         s_pc (o_sess o) = PReturned e /\
         isClosed (o_sess o) Front = true /\
         o_events o = [EvClose Front]
       | Copier => o_sess o = s /\ o_events o = []
       end) /\
    (forall e,
       s_pc s = PReturned e -> isClosed s Front = true /\ s_back s = None).
Proof.
  intros w rp pis k s Hk.
  pose proof (run_sessions_inv w rp (fun _ s => CloseInv s)
                (fun ln peer _ => CloseInv_init ln peer)
                (fun t s inp H => CloseInv_step w rp inp s H) pis k s Hk) as HI.
  simpl in HI. unfold CloseInv in HI. split; [|split].
  - intros inp e Hw Hpc He. unfold sstep, serveStep. rewrite Hw.
    destruct Hpc as [Hpc|[cfg Hpc]]; rewrite Hpc in *; rewrite He; simpl;
      destruct HI as [Hb Hg]; auto.
  - intros inp e Hpc. rewrite Hpc in HI. destruct HI as [Hb Hg].
    unfold sstep, serveStep, copierStep. rewrite Hpc, Hg.
    destruct (i_who inp); simpl; auto.
  - intros e Hpc. rewrite Hpc in HI. tauto.
Qed.

(** C2 on a run in which the backend refuses the connection. *)
Lemma C2_witness :
  p_sessions (run Sample.w0 (Sample.config "tcp" "tcp") Sample.refusedSchedule)
    !! 0 = Some Sample.refusedEnd /\
  isClosed Sample.refusedEnd Front = true /\
  s_back Sample.refusedEnd = None.
Proof.
  assert (H : p_sessions (run Sample.w0 (Sample.config "tcp" "tcp")
                            Sample.refusedSchedule) !! 0
              = Some Sample.refusedEnd) by reflexivity.
  split; [exact H|].
  destruct (C2_dial_failure_closes_front_connection _ _ _ _ _ H) as (_ & _ & Hr).
  apply (Hr "connection refused"). reflexivity.
Defined.

(** ** What a Session has done by the time it dials *)

Lemma copyStep_noDial (w : World) (src dst : Side) (pc : CopyPC) (inp : Input)
    (s : Session) :
  forallb (fun e => negb (isDial e)) (snd (copyStep w src dst pc inp s)) = true.
Proof. destruct pc; unfold copyStep; repeat break_if; reflexivity. Qed.

Lemma dialed_app (w : World) (rp : RProxy) (t evs : list Event) :
  dialed w rp t ->
  forallb (fun e => negb (isDial e)) evs = true ->
  dialed w rp (t ++ evs).
Proof.
  intros (rest & Hr & H) He. exists (rest ++ evs). split.
  - rewrite forallb_app, Hr, He. reflexivity.
  - destruct H as [[Hp ->]|(Hp & cfg & Hc & ->)]; [left|right].
    + split; [exact Hp|reflexivity].
    + split; [exact Hp|]. exists cfg. split; [exact Hc|reflexivity].
Qed.

Lemma dialed_tcp (w : World) (rp : RProxy) :
  backendProto rp = "tcp" -> dialed w rp [EvDial (dialTCP rp)].
Proof. intros H. exists []. split; [reflexivity|]. left. auto. Qed.

Lemma dialed_tls (w : World) (rp : RProxy) (config : TLSConfig) :
  backendProto rp = "tls" -> clientContext w rp = Some config ->
  dialed w rp [EvReadFile (rootCert rp);
               EvLoadKeyPair (clientCert rp) (clientKey rp);
               EvDial (dialTLS rp config)].
Proof.
  intros H Hc. exists []. split; [reflexivity|]. right.
  split; [exact H|]. exists config. auto.
Qed.

Lemma SessInv_init (w : World) (rp : RProxy) (ln : Listener)
    (peer : option Cert) :
  SessInv w rp [] (newSession ln peer).
Proof. split; [apply CloseInv_init|reflexivity]. Qed.

Lemma TraceInv_step (w : World) (rp : RProxy) (t : list Event) (inp : Input)
    (s : Session) :
  CloseInv s -> TraceInv w rp t s ->
  TraceInv w rp (t ++ o_events (sstep w rp inp s)) (o_sess (sstep w rp inp s)).
Proof.
  intros HC HT. unfold sstep. destruct (i_who inp).
  - unfold serveStep. unfold TraceInv in HT.
    destruct (s_pc s) as [| | |roots|cfg|e|c|e|a] eqn:Hpc.
    + subst t.
      destruct (String.eqb_spec (backendProto rp) "tcp") as [E1|E1];
        [split; [reflexivity|exact E1]|].
      destruct (String.eqb_spec (backendProto rp) "tls") as [E2|E2];
        [split; [reflexivity|exact E2]|].
      reflexivity.
    + destruct HT as [-> Hp]. simpl.
      destruct (i_dial inp) as [[]|e]; apply dialed_tcp, Hp.
    + destruct HT as [-> Hp].
      destruct (ReadFile w (rootCert rp)) as [pem|e] eqn:ER; [|reflexivity].
      destruct (AppendCertsFromPEM w pem) as [ok roots] eqn:EA.
      destruct ok; simpl; [|reflexivity].
      unfold TraceInv. simpl. split; [reflexivity|]. split; [exact Hp|].
      exists pem. split; [exact ER|exact EA].
    + destruct HT as (-> & Hp & pem & ER & EA).
      destruct (LoadX509KeyPair w (clientCert rp) (clientKey rp))
        as [cert|e] eqn:EL; [|reflexivity].
      unfold TraceInv. simpl. split; [reflexivity|]. split; [exact Hp|].
      unfold clientContext. rewrite ER, EA, EL. reflexivity.
    + destruct HT as (-> & Hp & Hc). simpl.
      destruct (i_dial inp) as [[]|e]; apply dialed_tls; assumption.
    + unfold TraceInv. simpl. apply dialed_app; [exact HT|reflexivity].
    + pose proof (copyStep_noDial w Back Front c inp s) as HN.
      destruct (copyStep w Back Front c inp s) as [[c' s'] evs].
      unfold TraceInv. simpl. apply dialed_app; [exact HT|exact HN].
    + simpl. rewrite app_nil_r. unfold TraceInv. rewrite Hpc. exact HT.
    + simpl. rewrite app_nil_r. unfold TraceInv. rewrite Hpc. exact HT.
  - unfold copierStep. destruct (s_go s) as [g|] eqn:Hg.
    + unfold CloseInv in HC. unfold TraceInv in HT.
      destruct (s_pc s) as [| | |roots|cfg|e|c|e|a] eqn:Hpc;
        try (exfalso; clear - HC Hg; intuition congruence).
      pose proof (copyStep_noDial w Front Back g inp s) as HN.
      pose proof (copyStep_frame w Front Back g inp s) as HF.
      destruct (copyStep w Front Back g inp s) as [[g' s'] evs].
      destruct HF as (HFp & _). unfold TraceInv. simpl. rewrite HFp, Hpc.
      apply dialed_app; [exact HT|exact HN].
    + simpl. rewrite app_nil_r. exact HT.
Qed.

Lemma SessInv_step (w : World) (rp : RProxy) (t : list Event) (s : Session)
    (inp : Input) :
  SessInv w rp t s ->
  SessInv w rp (t ++ o_events (sstep w rp inp s)) (o_sess (sstep w rp inp s)).
Proof.
  intros [HC HT]. split.
  - apply CloseInv_step, HC.
  - apply TraceInv_step; assumption.
Qed.

(** The invariant in every state the process reaches. *)
Lemma run_SessInv (w : World) (rp : RProxy) (pis : list PInput) (k : nat)
    (s : Session) :
  p_sessions (run w rp pis) !! k = Some s ->
  SessInv w rp (sessTrace k (p_trace (run w rp pis))) s.
Proof.
  apply (run_sessions_inv w rp (SessInv w rp)).
  - intros ln peer _. apply SessInv_init.
  - apply SessInv_step.
Qed.

(** Every dial there is in a trace of a Session. *)
Lemma dial_in_trace (w : World) (rp : RProxy) (pis : list PInput) (k : nat)
    (req : DialReq) :
  In (Some k, EvDial req) (p_trace (run w rp pis)) ->
  dialed w rp (sessTrace k (p_trace (run w rp pis))) /\
  In (EvDial req) (sessTrace k (p_trace (run w rp pis))).
Proof.
  intros Hin. apply sessTrace_In in Hin. split; [|exact Hin].
  pose proof (PInv_run w rp (SessInv w rp)
                (fun ln peer _ => SessInv_init w rp ln peer)
                (SessInv_step w rp) pis) as HP.
  destruct (p_sessions (run w rp pis) !! k) as [s|] eqn:Hk.
  - destruct (inv_sess _ _ _ _ HP k s Hk) as [_ HT].
    unfold TraceInv in HT.
    assert (HnoDial : forall t, forallb (fun e => negb (isDial e)) t = true ->
                                In (EvDial req) t -> False).
    { intros t Ht Hi. rewrite forallb_forall in Ht.
      specialize (Ht _ Hi). discriminate. }
    destruct (s_pc s) as [| | |roots|cfg|e|c|e|a].
    + exfalso. rewrite HT in Hin. exact Hin.
    + exfalso. destruct HT as [Ht _]. rewrite Ht in Hin. exact Hin.
    + exfalso. destruct HT as [Ht _]. rewrite Ht in Hin. exact Hin.
    + exfalso. destruct HT as [Ht _]. rewrite Ht in Hin.
      simpl in Hin. destruct Hin as [H|[]]. discriminate.
    + exfalso. destruct HT as [Ht _]. rewrite Ht in Hin.
      simpl in Hin. destruct Hin as [H|[H|[]]]; discriminate.
    + exact HT.
    + exact HT.
    + exact HT.
    + exfalso. exact (HnoDial _ HT Hin).
  - exfalso. apply lookup_ge_None in Hk.
    rewrite (inv_fresh _ _ _ _ HP k Hk) in Hin. exact Hin.
Qed.

Lemma dialed_In (w : World) (rp : RProxy) (t : list Event) (req : DialReq) :
  dialed w rp t -> In (EvDial req) t ->
  (backendProto rp = "tcp" /\ req = dialTCP rp) \/
  (backendProto rp = "tls" /\
   exists config rest,
     clientContext w rp = Some config /\ req = dialTLS rp config /\
     t = EvReadFile (rootCert rp)
         :: EvLoadKeyPair (clientCert rp) (clientKey rp)
         :: EvDial req :: rest).
Proof.
  intros (rest & Hr & H) Hin.
  assert (Hrest : ~ In (EvDial req) rest).
  { intros Hi. rewrite forallb_forall in Hr. specialize (Hr _ Hi).
    discriminate. }
  destruct H as [[Hp ->]|(Hp & cfg & Hc & ->)]; [left|right].
  - split; [exact Hp|]. destruct Hin as [H|H]; [congruence|contradiction].
  - split; [exact Hp|]. exists cfg, rest. split; [exact Hc|].
    destruct Hin as [H|[H|[H|H]]]; try discriminate; try contradiction.
    injection H as <-. split; reflexivity.
Qed.

Lemma clientContext_ServerName (w : World) (rp : RProxy) (config : TLSConfig) :
  clientContext w rp = Some config -> ServerName config = "testapp-server".
Proof.
  unfold clientContext. intros H.
  destruct (ReadFile w (rootCert rp)); [|discriminate].
  destruct (AppendCertsFromPEM w x) as [ok roots].
  destruct (negb ok); [discriminate|].
  destruct (LoadX509KeyPair w (clientCert rp) (clientKey rp)); [|discriminate].
  injection H as <-. reflexivity.
Qed.

(** C9.  Whatever the configuration and whatever the files hold: every
    dial of an encrypted backend, in every run, carries a [tls.Config]
    whose [ServerName] is "testapp-server"; and over an encrypted backend
    every dial carries such a configuration. *)
Theorem C9_backend_identity_name_is_fixed :
  forall (w : World) (rp : RProxy) (pis : list PInput) (k : nat)
         (req : DialReq),
    In (Some k, EvDial req) (p_trace (run w rp pis)) ->
    (forall config, dTLS req = Some config ->
                    ServerName config = "testapp-server") /\
    (backendProto rp = "tls" ->
     exists config, dTLS req = Some config /\
                    ServerName config = "testapp-server").
Proof.
  intros w rp pis k req Hin.
  destruct (dial_in_trace w rp pis k req Hin) as [Hd Hi].
  destruct (dialed_In w rp _ req Hd Hi)
    as [[Hp ->]|(Hp & cfg & rest & Hc & -> & _)].
  - split.
    + intros cfg H. discriminate.
    + intros H. rewrite Hp in H. discriminate.
  - split.
    + intros cfg' H. injection H as <-.
      apply (clientContext_ServerName w rp), Hc.
    + intros _. exists cfg. split; [reflexivity|].
      apply (clientContext_ServerName w rp), Hc.
Qed.

(** C9 on a run with two Sessions over an encrypted backend. *)
Lemma C9_witness :
  In (Some 1, EvDial Sample.tlsDial)
     (p_trace (run Sample.w0 (Sample.config "tcp" "tls") Sample.twoSessions)) /\
  ServerName Sample.theClientConfig = "testapp-server".
Proof.
  assert (H : In (Some 1, EvDial Sample.tlsDial)
                 (p_trace (run Sample.w0 (Sample.config "tcp" "tls")
                               Sample.twoSessions))).
  { vm_compute. tauto. }
  split; [exact H|].
  destruct (C9_backend_identity_name_is_fixed _ _ _ _ _ H) as [Hn _].
  apply Hn. reflexivity.
Defined.

(** C5 (what the code does).  A dial of the plain backend is
    [net.DialTimeout] with 30 seconds; a dial of the encrypted backend is
    [tls.Dial], which is given no timeout. *)
Theorem C5_dial_timeout_by_backend_kind :
  forall (w : World) (rp : RProxy) (pis : list PInput) (k : nat)
         (req : DialReq),
    In (Some k, EvDial req) (p_trace (run w rp pis)) ->
    (backendProto rp = "tcp" /\ dTLS req = None /\
     dTimeout req = Some 30000000000%Z) \/
    (backendProto rp = "tls" /\ dTLS req <> None /\ dTimeout req = None).
Proof.
  intros w rp pis k req Hin.
  destruct (dial_in_trace w rp pis k req Hin) as [Hd Hi].
  destruct (dialed_In w rp _ req Hd Hi)
    as [[Hp ->]|(Hp & cfg & rest & Hc & -> & _)]; [left|right].
  - split; [exact Hp|]. split; reflexivity.
  - split; [exact Hp|]. split; [discriminate|reflexivity].
Qed.

(** C5 at an encrypted backend: the dial has no timeout. *)
Lemma C5_witness :
  In (Some 0, EvDial Sample.tlsDial)
     (p_trace (run Sample.w0 (Sample.config "tcp" "tls") Sample.twoSessions)) /\
  backendProto (Sample.config "tcp" "tls") = "tls" /\
  dTimeout Sample.tlsDial = None.
Proof.
  assert (H : In (Some 0, EvDial Sample.tlsDial)
                 (p_trace (run Sample.w0 (Sample.config "tcp" "tls")
                               Sample.twoSessions))).
  { vm_compute. tauto. }
  split; [exact H|].
  destruct (C5_dial_timeout_by_backend_kind _ _ _ _ _ H)
    as [(Hp & _)|(Hp & _ & Ht)]; [discriminate Hp|].
  split; [exact Hp|exact Ht].
Defined.

(** C4, as stated, fails: two Sessions over an encrypted backend each read
    the root file and load the client pair again. *)
Lemma C4_counterexample :
  sessTrace 0 (p_trace (run Sample.w0 (Sample.config "tcp" "tls")
                            Sample.twoSessions))
    = [EvReadFile "certs/root_cert.pem";
       EvLoadKeyPair "certs/client_cert.pem" "certs/client_key.pem";
       EvDial Sample.tlsDial] /\
  sessTrace 1 (p_trace (run Sample.w0 (Sample.config "tcp" "tls")
                            Sample.twoSessions))
    = [EvReadFile "certs/root_cert.pem";
       EvLoadKeyPair "certs/client_cert.pem" "certs/client_key.pem";
       EvDial Sample.tlsDial].
Proof. split; reflexivity. Qed.

(** C4, amended.  Each Session that dials the encrypted backend has built
    the client-side configuration itself: its own trace starts with the
    read of the root file and the load of the client certificate and key,
    followed by the dial, and the configuration of the dial is the one made
    from what these two returned. *)
Theorem C4_client_context_is_built_by_every_session :
  forall (w : World) (rp : RProxy) (pis : list PInput) (k : nat)
         (req : DialReq) (config : TLSConfig),
    In (Some k, EvDial req) (p_trace (run w rp pis)) ->
    dTLS req = Some config ->
    clientContext w rp = Some config /\
    exists rest,
      sessTrace k (p_trace (run w rp pis))
      = EvReadFile (rootCert rp)
        :: EvLoadKeyPair (clientCert rp) (clientKey rp)
        :: EvDial req :: rest.
Proof.
  intros w rp pis k req config Hin Hcfg.
  destruct (dial_in_trace w rp pis k req Hin) as [Hd Hi].
  destruct (dialed_In w rp _ req Hd Hi)
    as [[Hp ->]|(Hp & cfg & rest & Hc & -> & Ht)]; [discriminate|].
  injection Hcfg as <-. split; [exact Hc|]. exists rest. exact Ht.
Qed.

(** C4 amended, on the second of two Sessions. *)
Lemma C4_witness :
  In (Some 1, EvDial Sample.tlsDial)
     (p_trace (run Sample.w0 (Sample.config "tcp" "tls") Sample.twoSessions)) /\
  clientContext Sample.w0 (Sample.config "tcp" "tls")
    = Some Sample.theClientConfig.
Proof.
  assert (H : In (Some 1, EvDial Sample.tlsDial)
                 (p_trace (run Sample.w0 (Sample.config "tcp" "tls")
                               Sample.twoSessions))).
  { vm_compute. tauto. }
  split; [exact H|].
  apply (C4_client_context_is_built_by_every_session _ _ _ _ _ _ H).
  reflexivity.
Defined.

(** ** Unsupported transport kinds *)

Lemma supported_false (proto : string) :
  supported proto = false ->
  String.eqb proto "tcp" = false /\ String.eqb proto "tls" = false.
Proof. unfold supported. apply orb_false_iff. Qed.

Lemma UnservedInv_step (w : World) (rp : RProxy) (t : list Event)
    (s : Session) (inp : Input) :
  supported (backendProto rp) = false ->
  UnservedInv t s ->
  UnservedInv (t ++ o_events (sstep w rp inp s)) (o_sess (sstep w rp inp s)).
Proof.
  intros Hs (-> & Hb & Hg & Hc & Hsent & Hpc).
  apply supported_false in Hs as [E1 E2].
  unfold sstep, serveStep, copierStep. rewrite Hg.
  destruct (i_who inp); [|repeat split; auto].
  destruct Hpc as [Hpc|Hpc]; rewrite Hpc.
  - rewrite E1, E2. simpl. repeat split; auto.
  - simpl. repeat split; auto.
Qed.

(** C3, as stated, fails for the backend kind: with a plain listener and
    the backend kind "udp" [Start] binds and enters the accept loop, a
    connection is accepted and handed to [serve]; the panic comes from
    [serve] after that. *)
Lemma C3_counterexample :
  supported (backendProto (Sample.config "tcp" "udp")) = false /\
  Start Sample.w0 (Sample.config "tcp" "udp")
    = ([EvResolve "127.0.0.1:9000"; EvListenTCP "127.0.0.1:9000"],
       inr Sample.plainListener) /\
  p_trace (run Sample.w0 (Sample.config "tcp" "udp") [PAccept (Ok None)])
    = Sample.startedPlain ++ [(None, EvAccepted 0); (None, EvGoServe 0)] /\
  p_abort (run Sample.w0 (Sample.config "tcp" "udp") [PAccept (Ok None)])
    = None /\
  p_abort (run Sample.w0 (Sample.config "tcp" "udp")
               [PAccept (Ok None); PSess 0 Sample.serving])
    = Some (Some 0, Panic "backend protocol not supported").
Proof. repeat split; reflexivity. Qed.

(** C3, amended.  An unsupported listen kind makes [Start] panic at once:
    nothing is resolved, bound or accepted, under any schedule.  An
    unsupported backend kind is found by [serve]: whatever was accepted, no
    Session does anything (no dial, no relay, no close), its front
    connection is left open, and the first step of a Session ends the
    process with the panic of [serve]. *)
Theorem C3_unsupported_kind_is_fatal :
  forall (w : World) (rp : RProxy),
    (supported (listenProto rp) = false ->
     Start w rp = ([], inl (Panic "listen protocol not supported")) /\
     forall pis,
       run w rp pis
       = {| p_ln := None; p_sessions := []; p_trace := [];
            p_abort := Some (None, Panic "listen protocol not supported") |}) /\
    (supported (backendProto rp) = false ->
     forall pis,
       (forall k e, ~ In (Some k, e) (p_trace (run w rp pis))) /\
       (forall k s,
          p_sessions (run w rp pis) !! k = Some s ->
          s_back s = None /\ s_go s = None /\
          c_closed (s_front s) = false /\
          (s_pc s = PServe \/
           s_pc s = PAborted (Panic "backend protocol not supported"))) /\
       (forall k s inp,
          p_sessions (run w rp pis) !! k = Some s ->
          p_abort (run w rp pis) = None ->
          i_who inp = Serving ->
          p_abort (pstep w rp (run w rp pis) (PSess k inp))
          = Some (Some k, Panic "backend protocol not supported"))).
Proof.
  intros w rp. split.
  - intros Hs. apply supported_false in Hs as [E1 E2].
    assert (HS : Start w rp
                 = ([], inl (Panic "listen protocol not supported"))).
    { unfold Start. rewrite E1, E2. reflexivity. }
    split; [exact HS|]. intros pis. unfold run.
    rewrite prun_aborted; unfold boot; rewrite HS; [reflexivity|discriminate].
  - intros Hs pis.
    pose proof (PInv_run w rp UnservedInv
                  (fun ln peer _ =>
                     conj eq_refl (conj eq_refl (conj eq_refl
                       (conj eq_refl (conj eq_refl (or_introl eq_refl))))))
                  (fun t s inp => UnservedInv_step w rp t s inp Hs) pis) as HP.
    split; [|split].
    + intros k e Hin. apply sessTrace_In in Hin.
      destruct (p_sessions (run w rp pis) !! k) as [s|] eqn:Hk.
      * destruct (inv_sess _ _ _ _ HP k s Hk) as [Ht _].
        rewrite Ht in Hin. exact Hin.
      * apply lookup_ge_None in Hk.
        rewrite (inv_fresh _ _ _ _ HP k Hk) in Hin. exact Hin.
    + intros k s Hk.
      destruct (inv_sess _ _ _ _ HP k s Hk) as (_ & Hb & Hg & Hc & _ & Hpc).
      auto.
    + intros k s inp Hk Hab Hw.
      destruct (inv_sess _ _ _ _ HP k s Hk) as (_ & _ & _ & _ & _ & Hpc).
      apply supported_false in Hs as [E1 E2].
      unfold pstep. rewrite Hab, Hk. simpl.
      unfold sstep, serveStep. rewrite Hw.
      destruct Hpc as [Hpc|Hpc]; rewrite Hpc.
      * rewrite E1, E2. reflexivity.
      * exfalso. exact (inv_alive _ _ _ _ HP k s _ Hab Hk Hpc).
Qed.

(** C3 amended, at the listen kind "udp" and at the backend kind "udp". *)
Lemma C3_witness :
  (supported (listenProto (Sample.config "udp" "tcp")) = false /\
   Start Sample.w0 (Sample.config "udp" "tcp")
   = ([], inl (Panic "listen protocol not supported"))) /\
  (supported (backendProto (Sample.config "tcp" "udp")) = false /\
   forall k e,
     ~ In (Some k, e)
          (p_trace (run Sample.w0 (Sample.config "tcp" "udp")
                        [PAccept (Ok None); PSess 0 Sample.copier]))).
Proof.
  split.
  - split; [reflexivity|].
    destruct (C3_unsupported_kind_is_fatal Sample.w0
                (Sample.config "udp" "tcp")) as [HL _].
    apply HL. reflexivity.
  - split; [reflexivity|].
    destruct (C3_unsupported_kind_is_fatal Sample.w0
                (Sample.config "tcp" "udp")) as [_ HB].
    apply (HB eq_refl [PAccept (Ok None); PSess 0 Sample.copier]).
Defined.

(** ** Failure to build the client-side configuration *)

Lemma clientContext_None_cases (w : World) (rp : RProxy) :
  clientContext w rp = None ->
  (exists e, ReadFile w (rootCert rp) = Err e) \/
  (exists rootPEM roots,
     ReadFile w (rootCert rp) = Ok rootPEM /\
     AppendCertsFromPEM w rootPEM = (false, roots)) \/
  (exists rootPEM roots e,
     ReadFile w (rootCert rp) = Ok rootPEM /\
     AppendCertsFromPEM w rootPEM = (true, roots) /\
     LoadX509KeyPair w (clientCert rp) (clientKey rp) = Err e).
Proof.
  unfold clientContext. intros H.
  destruct (ReadFile w (rootCert rp)) as [pem|e] eqn:ER; [|left; eauto].
  destruct (AppendCertsFromPEM w pem) as [[|] roots] eqn:EA;
    [|right; left; eauto]. simpl in H.
  destruct (LoadX509KeyPair w (clientCert rp) (clientKey rp)) as [c|e] eqn:EL;
    [discriminate|]. right. right. eauto 10.
Qed.

(** C7, as stated, fails: with a plain listener, an encrypted backend and
    a client pair that cannot be loaded, start-up succeeds and the accept
    loop is entered; the panic comes from [serveTLS], after a connection
    was accepted. *)
Lemma C7_counterexample :
  clientContext Sample.wNoClientPair (Sample.config "tcp" "tls") = None /\
  boot Sample.wNoClientPair (Sample.config "tcp" "tls")
    = {| p_ln := Some Sample.plainListener; p_sessions := [];
         p_trace := Sample.startedPlain; p_abort := None |} /\
  p_trace (run Sample.wNoClientPair (Sample.config "tcp" "tls")
               [PAccept (Ok None); PSess 0 Sample.serving;
                PSess 0 Sample.serving; PSess 0 Sample.serving])
    = Sample.startedPlain ++
      [(None, EvAccepted 0); (None, EvGoServe 0);
       (Some 0, EvReadFile "certs/root_cert.pem");
       (Some 0, EvLoadKeyPair "certs/client_cert.pem" "certs/client_key.pem")] /\
  p_abort (run Sample.wNoClientPair (Sample.config "tcp" "tls")
               [PAccept (Ok None); PSess 0 Sample.serving;
                PSess 0 Sample.serving; PSess 0 Sample.serving])
    = Some (Some 0, Panic "failed to load client tls certificate").
Proof. repeat split; reflexivity. Qed.

(** The same [RProxy] with other client certificate and key paths. *)
Lemma Start_ignores_client_paths (w : World) (rp : RProxy) (cc ck : string) :
  Start w rp
  = Start w {| listenProto := listenProto rp; listenAddr := listenAddr rp;
               backendProto := backendProto rp; backendAddr := backendAddr rp;
               rootCert := rootCert rp; serverCert := serverCert rp;
               serverKey := serverKey rp; clientCert := cc; clientKey := ck |}.
Proof. reflexivity. Qed.

(** C7, amended.  Over an encrypted backend, when the client-side
    configuration cannot be built: a Session that runs [serve] and
    [serveTLS] ends the process ([log.Fatalf] for an unreadable root file,
    [panic] for an unparseable one or for a client pair that does not load)
    before any dial; no run ever dials; whenever a Session ends the process
    its connection was accepted before; and [Start] does not depend on the
    client certificate and key paths. *)
Theorem C7_client_context_failure_is_fatal_while_serving :
  forall (w : World) (rp : RProxy),
    backendProto rp = "tls" ->
    clientContext w rp = None ->
    (forall ln peer i1 i2 i3,
       i_who i1 = Serving -> i_who i2 = Serving -> i_who i3 = Serving ->
       let o := srun w rp [i1; i2; i3] (newSession ln peer) in
       (o_abort o = Some (Fatal "failed to load root certificate") \/
        o_abort o = Some (Panic "failed to parse root certificate") \/
        o_abort o = Some (Panic "failed to load client tls certificate")) /\
       forallb (fun e => negb (isDial e)) (o_events o) = true) /\
    (forall pis k req, ~ In (Some k, EvDial req) (p_trace (run w rp pis))) /\
    (forall pis k a,
       p_abort (run w rp pis) = Some (Some k, a) ->
       In (None, EvAccepted k) (p_trace (run w rp pis))) /\
    (forall cc ck,
       Start w rp
       = Start w {| listenProto := listenProto rp;
                    listenAddr := listenAddr rp;
                    backendProto := backendProto rp;
                    backendAddr := backendAddr rp;
                    rootCert := rootCert rp; serverCert := serverCert rp;
                    serverKey := serverKey rp;
                    clientCert := cc; clientKey := ck |}).
Proof.
  intros w rp Hp Hc. split; [|split; [|split]].
  - intros ln peer i1 i2 i3 H1 H2 H3.
    assert (E1 : sstep w rp i1 (newSession ln peer)
                 = goOn (setPC PReadRoot (newSession ln peer)) []).
    { unfold sstep. rewrite H1. apply serve_tls; [exact Hp|reflexivity]. }
    cbn [srun]. rewrite E1. cbn [goOn o_abort o_sess o_events].
    set (s1 := setPC PReadRoot (newSession ln peer)).
    destruct (clientContext_None_cases w rp Hc)
      as [[e ER]|[(pem & roots & ER & EA)|(pem & roots & e & ER & EA & EL)]].
    + assert (E2 : sstep w rp i2 s1
                   = die s1 [EvReadFile (rootCert rp)]
                         (Fatal "failed to load root certificate")).
      { unfold sstep, serveStep, s1. rewrite H2. cbn [setPC s_pc].
        rewrite ER. reflexivity. }
      rewrite E2. simpl. split; [auto|reflexivity].
    + assert (E2 : sstep w rp i2 s1
                   = die s1 [EvReadFile (rootCert rp)]
                         (Panic "failed to parse root certificate")).
      { unfold sstep, serveStep, s1. rewrite H2. cbn [setPC s_pc].
        rewrite ER, EA. reflexivity. }
      rewrite E2. simpl. split; [auto|reflexivity].
    + assert (E2 : sstep w rp i2 s1
                   = goOn (setPC (PLoadPair roots) s1)
                          [EvReadFile (rootCert rp)]).
      { unfold sstep, serveStep, s1. rewrite H2. cbn [setPC s_pc].
        rewrite ER, EA. reflexivity. }
      rewrite E2. cbn [goOn o_abort o_sess o_events].
      set (s2 := setPC (PLoadPair roots) s1).
      assert (E3 : sstep w rp i3 s2
                   = die s2 [EvLoadKeyPair (clientCert rp) (clientKey rp)]
                         (Panic "failed to load client tls certificate")).
      { unfold sstep, serveStep, s2. rewrite H3. cbn [setPC s_pc].
        rewrite EL. reflexivity. }
      rewrite E3. simpl. split; [auto|reflexivity].
  - intros pis k req Hin.
    destruct (dial_in_trace w rp pis k req Hin) as [Hd Hi].
    destruct (dialed_In w rp _ req Hd Hi)
      as [[Hp' _]|(_ & cfg & rest & Hc' & _)]; congruence.
  - intros pis k a Hab.
    pose proof (PInv_run w rp (SessInv w rp)
                  (fun ln peer _ => SessInv_init w rp ln peer)
                  (SessInv_step w rp) pis) as HP.
    apply (inv_abort_sess _ _ _ _ HP k a Hab).
  - intros cc ck. apply Start_ignores_client_paths.
Qed.

(** C7 amended, where the client pair is missing. *)
Lemma C7_witness :
  backendProto (Sample.config "tcp" "tls") = "tls" /\
  clientContext Sample.wNoClientPair (Sample.config "tcp" "tls") = None /\
  forall pis k req,
    ~ In (Some k, EvDial req)
         (p_trace (run Sample.wNoClientPair (Sample.config "tcp" "tls") pis)).
Proof.
  split; [reflexivity|]. split; [reflexivity|].
  destruct (C7_client_context_failure_is_fatal_while_serving
              Sample.wNoClientPair (Sample.config "tcp" "tls")
              eq_refl eq_refl) as (_ & Hd & _).
  exact Hd.
Defined.

(** ** The accept loop *)

Lemma pstep_accept_error (w : World) (rp : RProxy) (p : Proc) (ln : Listener)
    (e : string) :
  p_abort p = None -> p_ln p = Some ln ->
  pstep w rp p (PAccept (Err e))
  = {| p_ln := p_ln p; p_sessions := p_sessions p;
       p_trace := p_trace p ++ acceptErrorLog e; p_abort := None |}.
Proof.
  intros Hab Hln. destruct p as [l ss tr ab]. simpl in *. subst.
  reflexivity.
Qed.

Lemma prun_accept_errors (w : World) (rp : RProxy) (es : list string)
    (p : Proc) (ln : Listener) :
  p_abort p = None -> p_ln p = Some ln ->
  prun w rp (map (fun e => PAccept (Err e)) es) p
  = {| p_ln := p_ln p; p_sessions := p_sessions p;
       p_trace := p_trace p ++ concat (map acceptErrorLog es);
       p_abort := None |}.
Proof.
  revert p. induction es as [|e es IH]; intros p Hab Hln.
  - simpl. rewrite app_nil_r. destruct p. simpl in *. subst. reflexivity.
  - change (prun w rp (map (fun e => PAccept (Err e)) (e :: es)) p)
      with (prun w rp (map (fun e => PAccept (Err e)) es)
                 (pstep w rp p (PAccept (Err e)))).
    rewrite (pstep_accept_error w rp p ln e Hab Hln).
    rewrite IH by (simpl; auto). simpl. rewrite <- app_assoc. reflexivity.
Qed.

(** C8.  A failed bind makes [Start] panic with the error of the bind, for
    a plain and for an encrypted listener.  Once the accept loop runs, a
    failed [Accept] is logged and nothing else changes; after any number of
    failed [Accept]s the process is still running and the next connection
    is accepted and handed to [serve]; and in no run is the process ended
    by the goroutine of the accept loop: if that goroutine ended it, it did
    so in the start-up code of [Start]. *)
Theorem C8_accept_errors_do_not_end_the_process :
  forall (w : World) (rp : RProxy),
    (forall lAddr e,
       listenProto rp = "tcp" ->
       ResolveTCPAddr w (listenAddr rp) = Ok lAddr ->
       bindAddr w lAddr = Err e ->
       snd (Start w rp) = inl (Panic e)) /\
    (forall rootPEM roots cert e,
       listenProto rp = "tls" ->
       ReadFile w (rootCert rp) = Ok rootPEM ->
       AppendCertsFromPEM w rootPEM = (true, roots) ->
       LoadX509KeyPair w (serverCert rp) (serverKey rp) = Ok cert ->
       bindAddr w (listenAddr rp) = Err e ->
       snd (Start w rp) = inl (Panic e)) /\
    (forall pis e,
       p_abort (run w rp pis) = None ->
       pstep w rp (run w rp pis) (PAccept (Err e))
       = {| p_ln := p_ln (run w rp pis);
            p_sessions := p_sessions (run w rp pis);
            p_trace := p_trace (run w rp pis) ++ acceptErrorLog e;
            p_abort := None |}) /\
    (forall pis es peer,
       p_abort (run w rp pis) = None ->
       exists ln,
         snd (Start w rp) = inr ln /\
         run w rp (pis ++ map (fun e => PAccept (Err e)) es
                       ++ [PAccept (Ok peer)])
         = {| p_ln := Some ln;
              p_sessions := p_sessions (run w rp pis) ++ [newSession ln peer];
              p_trace := p_trace (run w rp pis)
                         ++ concat (map acceptErrorLog es)
                         ++ tagMain [EvAccepted (length (p_sessions (run w rp pis)));
                                     EvGoServe (length (p_sessions (run w rp pis)))];
              p_abort := None |}) /\
    (forall pis a,
       p_abort (run w rp pis) = Some (None, a) -> snd (Start w rp) = inl a).
Proof.
  intros w rp.
  assert (HP : forall pis, PInv w rp (fun _ _ => True) (run w rp pis)).
  { intros pis. apply PInv_run; auto. }
  split; [|split; [|split; [|split]]].
  - intros lAddr e Hp HR HB. rewrite (Start_tcp w rp Hp).
    unfold startTCP. rewrite HR. simpl. rewrite HB. reflexivity.
  - intros pem roots cert e Hp HR HA HL HB. rewrite (Start_tls w rp Hp).
    unfold startTLS. rewrite HR, HA. cbn [negb]. rewrite HL, HB. reflexivity.
  - intros pis e Hab.
    destruct (inv_running _ _ _ _ (HP pis) Hab) as [ln Hln].
    apply (pstep_accept_error w rp _ ln e Hab Hln).
  - intros pis es peer Hab.
    destruct (inv_running _ _ _ _ (HP pis) Hab) as [ln Hln].
    exists ln. split; [apply (inv_ln _ _ _ _ (HP pis)), Hln|].
    unfold run. rewrite !prun_app. fold (run w rp pis).
    rewrite (prun_accept_errors w rp es _ ln Hab Hln).
    unfold prun. simpl. unfold pstep. simpl. rewrite Hln. simpl.
    rewrite <- app_assoc. reflexivity.
  - intros pis a Hab. apply (inv_abort_main _ _ _ _ (HP pis) a Hab).
Qed.

(** C8 where the listen address is taken, and on two failed [Accept]s
    followed by a good one. *)
Lemma C8_witness :
  snd (Start Sample.wBusy (Sample.config "tcp" "tcp"))
    = inl (Panic "address already in use") /\
  p_abort (run Sample.w0 (Sample.config "tcp" "tcp") Sample.acceptErrors)
    = None /\
  p_sessions (run Sample.w0 (Sample.config "tcp" "tcp") Sample.acceptErrors)
    = [newSession Sample.plainListener None].
Proof.
  destruct (C8_accept_errors_do_not_end_the_process Sample.wBusy
              (Sample.config "tcp" "tcp")) as (HB & _).
  destruct (C8_accept_errors_do_not_end_the_process Sample.w0
              (Sample.config "tcp" "tcp")) as (_ & _ & _ & HL & _).
  split; [apply (HB "127.0.0.1:9000"); reflexivity|].
  destruct (HL [] ["too many open files"; "connection aborted"] None eq_refl)
    as (ln & Hln & Hrun).
  injection Hln as <-.
  change (run Sample.w0 (Sample.config "tcp" "tcp") Sample.acceptErrors)
    with (run Sample.w0 (Sample.config "tcp" "tcp")
            ([] ++ map (fun e => PAccept (Err e))
                       ["too many open files"; "connection aborted"]
                ++ [PAccept (Ok None)])).
  rewrite Hrun. split; reflexivity.
Defined.

(** ** Client authentication on an encrypted listen side *)

Lemma doHandshake_unauth (w : World) (cfg : TLSConfig) (peer : option Cert)
    (rest : bool) (c : Conn) :
  clientAuthOK w cfg peer = false -> pendingOrFailed c ->
  handshaken (doHandshake w (Some cfg) peer rest c) = false /\
  pendingOrFailed (doHandshake w (Some cfg) peer rest c).
Proof.
  intros Ha [H|H]; unfold doHandshake, pendingOrFailed; rewrite H, ?Ha.
  - rewrite andb_false_r. simpl. auto.
  - unfold handshaken. rewrite H. auto.
Qed.

Lemma sstep_frame (w : World) (rp : RProxy) (inp : Input) (s : Session) :
  s_srv (o_sess (sstep w rp inp s)) = s_srv s /\
  s_peer (o_sess (sstep w rp inp s)) = s_peer s.
Proof.
  unfold sstep. destruct (i_who inp).
  - unfold serveStep. destruct (s_pc s) as [| | |roots|cfg|e|c|e|a].
    + repeat break_if; split; reflexivity.
    + destruct (i_dial inp); split; reflexivity.
    + repeat break_if; split; reflexivity.
    + repeat break_if; split; reflexivity.
    + destruct (i_dial inp); split; reflexivity.
    + unfold mapConn. simpl. split; reflexivity.
    + pose proof (copyStep_frame w Back Front c inp s) as HF.
      destruct (copyStep w Back Front c inp s) as [[c' s'] evs].
      simpl. tauto.
    + split; reflexivity.
    + split; reflexivity.
  - unfold copierStep. destruct (s_go s) as [g|]; [|split; reflexivity].
    pose proof (copyStep_frame w Front Back g inp s) as HF.
    destruct (copyStep w Front Back g inp s) as [[g' s'] evs].
    simpl. tauto.
Qed.

(** The loop that writes to the front connection: the handshake its
    [Write] starts fails, nothing is written. *)
Lemma copyStep_unauth_to_front (w : World) (cfg : TLSConfig) (pc : CopyPC)
    (inp : Input) (s : Session) :
  s_srv s = Some cfg -> clientAuthOK w cfg (s_peer s) = false ->
  pendingOrFailed (s_front s) -> silent s ->
  let '(_, s', evs) := copyStep w Back Front pc inp s in
  pendingOrFailed (s_front s') /\ silent s' /\
  forallb (fun e => negb (isWrite e)) evs = true.
Proof.
  intros Hsrv Ha Hf [Hsf Hsb].
  destruct s as [p g f [b|] srv peer]; simpl in *; subst srv.
  - pose proof (doHandshake_unauth w cfg peer (i_hs inp) f Ha Hf) as [Hh Hpf].
    specialize (Hsb b eq_refl).
    destruct pc; simpl; rewrite ?Hh; simpl;
      repeat break_if; simpl; unfold silent; simpl;
      rewrite ?doHandshake_sent;
      repeat split; auto; intros b' Hb'; injection Hb' as <-;
      rewrite ?doHandshake_sent; auto.
  - pose proof (doHandshake_unauth w cfg peer (i_hs inp) f Ha Hf) as [Hh Hpf].
    destruct pc; simpl; rewrite ?Hh; simpl;
      repeat break_if; simpl; unfold silent; simpl;
      rewrite ?doHandshake_sent;
      repeat split; auto; intros b' Hb'; discriminate.
Qed.

(** The loop that reads from the front connection: the handshake its
    [Read] starts fails, so it never has anything to write. *)
Lemma copyStep_unauth_from_front (w : World) (cfg : TLSConfig) (pc : CopyPC)
    (inp : Input) (s : Session) :
  s_srv s = Some cfg -> clientAuthOK w cfg (s_peer s) = false ->
  pendingOrFailed (s_front s) -> silent s ->
  (forall ch er, pc <> CWrite ch er) ->
  let '(pc', s', evs) := copyStep w Front Back pc inp s in
  pendingOrFailed (s_front s') /\ silent s' /\
  (forall ch er, pc' <> CWrite ch er) /\
  forallb (fun e => negb (isWrite e)) evs = true.
Proof.
  intros Hsrv Ha Hf [Hsf Hsb] Hpc.
  pose proof (doHandshake_unauth w cfg (s_peer s) (i_hs inp) (s_front s) Ha Hf)
    as [Hh Hpf].
  destruct s as [p g f [b|] srv peer]; simpl in *; subst srv;
    (destruct pc as [|ch er| | |];
     [ | exfalso; exact (Hpc ch er eq_refl) | | | ]);
    simpl; rewrite ?Hh; simpl;
    repeat break_if; simpl; unfold silent; simpl;
    rewrite ?doHandshake_sent;
    repeat split; auto; try discriminate;
    try (intros b' Hb'; first [discriminate | injection Hb' as <-]; auto).
  simpl. apply Hsb. reflexivity.
Qed.

Lemma FrontInv_init (w : World) (rp : RProxy) (ln : Listener)
    (peer : option Cert) :
  snd (Start w rp) = inr ln -> FrontInv w rp [] (newSession ln peer).
Proof.
  intros HS. split.
  - intros ln' HS'. simpl. congruence.
  - intros (cfg & Hsrv & Ha). simpl in Hsrv.
    unfold pendingOrFailed, silent. simpl. rewrite Hsrv.
    repeat split; auto; discriminate.
Qed.

Lemma AuthInv_step (w : World) (rp : RProxy) (t : list Event) (s : Session)
    (inp : Input) :
  AuthInv w t s ->
  AuthInv w (t ++ o_events (sstep w rp inp s)) (o_sess (sstep w rp inp s)).
Proof.
  intros HI (cfg & Hsrv & Ha).
  destruct (sstep_frame w rp inp s) as [Fs Fp]. rewrite Fs in Hsrv.
  rewrite Fp in Ha.
  destruct (HI (ex_intro _ cfg (conj Hsrv Ha))) as (Hf & Hq & Hgo & Ht).
  rewrite forallb_app, Ht. clear HI Fs Fp.
  unfold sstep. destruct (i_who inp).
  - unfold serveStep. destruct (s_pc s) as [| | |roots|c0|e|c|e|a].
    + repeat break_if; simpl; auto.
    + destruct (i_dial inp) as [[]|e]; simpl; [|auto].
      destruct Hq as [Hq1 Hq2]. unfold silent. simpl.
      repeat split; auto; try discriminate.
      intros b Hb. injection Hb as <-. reflexivity.
    + repeat break_if; simpl; auto.
    + repeat break_if; simpl; auto.
    + destruct (i_dial inp) as [[]|e]; simpl; [|auto].
      destruct Hq as [Hq1 Hq2]. unfold silent. simpl.
      repeat split; auto; try discriminate.
      intros b Hb. injection Hb as <-. reflexivity.
    + destruct Hq as [Hq1 Hq2]. unfold mapConn, silent, pendingOrFailed in *.
      simpl in *. repeat split; auto.
    + pose proof (copyStep_unauth_to_front w cfg c inp s Hsrv Ha Hf Hq) as HC.
      pose proof (copyStep_frame w Back Front c inp s) as HF.
      destruct (copyStep w Back Front c inp s) as [[c' s'] evs].
      destruct HC as (H1 & [H2a H2b] & H3). destruct HF as (_ & HFg & _).
      unfold silent. simpl. rewrite HFg. repeat split; auto.
    + simpl. auto.
    + simpl. auto.
  - unfold copierStep. destruct (s_go s) as [g|] eqn:Eg.
    2: { simpl. split; [exact Hf|]. split; [exact Hq|].
         split; [|reflexivity]. intros ch er. rewrite Eg. discriminate. }
    assert (Hg : forall ch er, g <> CWrite ch er).
    { intros ch er ->. exact (Hgo ch er eq_refl). }
    pose proof (copyStep_unauth_from_front w cfg g inp s Hsrv Ha Hf Hq Hg)
      as HC.
    destruct (copyStep w Front Back g inp s) as [[g' s'] evs].
    destruct HC as (H1 & [H2a H2b] & H3 & H4). unfold silent. simpl.
    repeat split; auto.
    intros ch er H. injection H as ->. exact (H3 ch er eq_refl).
Qed.

Lemma FrontInv_step (w : World) (rp : RProxy) (t : list Event) (s : Session)
    (inp : Input) :
  FrontInv w rp t s ->
  FrontInv w rp (t ++ o_events (sstep w rp inp s))
           (o_sess (sstep w rp inp s)).
Proof.
  intros [Hln HA]. split.
  - intros ln HS. destruct (sstep_frame w rp inp s) as [-> _].
    apply Hln, HS.
  - apply AuthInv_step, HA.
Qed.

Lemma startTLS_listener (w : World) (rp : RProxy) (ln : Listener) :
  snd (startTLS w rp) = inr ln ->
  exists rootPEM cert,
    ReadFile w (rootCert rp) = Ok rootPEM /\
    LoadX509KeyPair w (serverCert rp) (serverKey rp) = Ok cert /\
    lnTLS ln = Some (serverConfig (certsOfPEM w rootPEM) cert).
Proof.
  unfold startTLS, AppendCertsFromPEM.
  destruct (ReadFile w (rootCert rp)) as [pem|e]; [|discriminate].
  destruct (negb (negb (Nat.eqb (length (certsOfPEM w pem)) 0)));
    [discriminate|].
  destruct (LoadX509KeyPair w (serverCert rp) (serverKey rp)) as [cert|e];
    [|discriminate].
  destruct (bindAddr w (listenAddr rp)) as [[]|e]; [|discriminate].
  simpl. intros H. injection H as <-. exists pem, cert. auto.
Qed.

(** C6, as stated, fails in its last part: over an encrypted listener the
    Session of a peer that presents no certificate, and of one whose
    certificate does not chain to the root, dials the backend and has both
    copy loops of the Relay running, with the handshake still to come. *)
Lemma C6_counterexample :
  clientAuthOK Sample.w0 Sample.theServerConfig None = false /\
  clientAuthOK Sample.w0 Sample.theServerConfig (Some Sample.strangerCert)
    = false /\
  p_sessions (run Sample.w0 (Sample.config "tls" "tcp") Sample.noCertPeer)
    = [Sample.relaying None] /\
  In (Some 0, EvDial Sample.tcpDial)
     (p_trace (run Sample.w0 (Sample.config "tls" "tcp") Sample.noCertPeer)) /\
  p_sessions (run Sample.w0 (Sample.config "tls" "tcp") Sample.strangerPeer)
    = [Sample.relaying (Some Sample.strangerCert)] /\
  In (Some 0, EvDial Sample.tcpDial)
     (p_trace (run Sample.w0 (Sample.config "tls" "tcp") Sample.strangerPeer)).
Proof.
  split; [reflexivity|]. split; [reflexivity|].
  split; [reflexivity|]. split; [vm_compute; tauto|].
  split; [reflexivity|]. vm_compute; tauto.
Qed.

(** C6, amended.  When the listen side is encrypted and [Start] gets to
    the accept loop, the listener's configuration asks every client for a
    certificate and verifies it against the pool read from the root file
    ([RequireAndVerifyClientCert]).  Every accepted connection carries that
    configuration.  The Session of a peer with no certificate, or with one
    that does not chain to the pool, never completes the handshake, and no
    byte is written to its front or to its backend connection in any
    state of any run. *)
Theorem C6_listener_requires_and_verifies_client_certificate :
  forall (w : World) (rp : RProxy) (ln : Listener),
    listenProto rp = "tls" ->
    snd (Start w rp) = inr ln ->
    exists rootPEM cert config,
      ReadFile w (rootCert rp) = Ok rootPEM /\
      LoadX509KeyPair w (serverCert rp) (serverKey rp) = Ok cert /\
      lnTLS ln = Some config /\
      ClientAuth config = RequireAndVerifyClientCert /\
      ClientCAs config = Some (certsOfPEM w rootPEM) /\
      Certificates config = [cert] /\
      forall pis k s,
        p_sessions (run w rp pis) !! k = Some s ->
        s_srv s = Some config /\
        (match s_peer s with
         | Some c => chainsTo w (certsOfPEM w rootPEM) c = false
         | None => True
         end ->
         c_hs (s_front s) <> HSDone /\
         c_sent (s_front s) = [] /\
         (forall b, s_back s = Some b -> c_sent b = []) /\
         forall to chunk,
           ~ In (Some k, EvWrite to chunk) (p_trace (run w rp pis))).
Proof.
  intros w rp ln Hp HS.
  assert (HS' : snd (startTLS w rp) = inr ln).
  { rewrite <- (Start_tls w rp Hp). exact HS. }
  destruct (startTLS_listener w rp ln HS') as (pem & cert & ER & EL & Hcfg).
  exists pem, cert, (serverConfig (certsOfPEM w pem) cert).
  split; [exact ER|]. split; [exact EL|]. split; [exact Hcfg|].
  split; [reflexivity|]. split; [reflexivity|]. split; [reflexivity|].
  intros pis k s Hk.
  destruct (run_sessions_inv w rp (FrontInv w rp)
              (FrontInv_init w rp) (FrontInv_step w rp) pis k s Hk)
    as [Hsrv HA].
  specialize (Hsrv ln HS). rewrite Hcfg in Hsrv.
  split; [exact Hsrv|]. intros Hpeer.
  assert (Hun : unauthenticated w s).
  { exists (serverConfig (certsOfPEM w pem) cert). split; [exact Hsrv|].
    unfold clientAuthOK. simpl. destruct (s_peer s); [exact Hpeer|reflexivity]. }
  destruct (HA Hun) as (Hf & [Hq1 Hq2] & _ & Ht).
  split; [|split; [exact Hq1|split; [exact Hq2|]]].
  - destruct Hf as [H|H]; rewrite H; discriminate.
  - intros to chunk Hin. apply sessTrace_In in Hin.
    rewrite forallb_forall in Ht. specialize (Ht _ Hin). discriminate.
Qed.

(** C6 amended, for a peer without a certificate whose Session is in the
    Relay. *)
Lemma C6_witness :
  snd (Start Sample.w0 (Sample.config "tls" "tcp"))
    = inr {| lnAddr := "127.0.0.1:9000";
             lnTLS := Some Sample.theServerConfig |} /\
  forall to chunk,
    ~ In (Some 0, EvWrite to chunk)
         (p_trace (run Sample.w0 (Sample.config "tls" "tcp")
                       (Sample.noCertPeer
                        ++ [PSess 0 Sample.copier; PSess 0 Sample.serving;
                            PSess 0 Sample.serving]))).
Proof.
  assert (HS : snd (Start Sample.w0 (Sample.config "tls" "tcp"))
               = inr {| lnAddr := "127.0.0.1:9000";
                        lnTLS := Some Sample.theServerConfig |})
    by reflexivity.
  split; [exact HS|].
  destruct (C6_listener_requires_and_verifies_client_certificate
              Sample.w0 (Sample.config "tls" "tcp") _ eq_refl HS)
    as (pem & cert & cfg & _ & _ & _ & _ & _ & _ & Hall).
  eapply Hall; [reflexivity|exact I].
Defined.

(** * Further properties of the proxy *)

(** ** When [Start] gets to the accept loop *)

Lemma Start_events_startup (w : World) (rp : RProxy) :
  forallb isStartupEvent (fst (Start w rp)) = true.
Proof.
  unfold Start, startTCP, startTLS, AppendCertsFromPEM.
  destruct (String.eqb (listenProto rp) "tcp").
  - destruct (ResolveTCPAddr w (listenAddr rp)) as [a|e]; [|reflexivity].
    simpl. destruct (bindAddr w a); reflexivity.
  - destruct (String.eqb (listenProto rp) "tls"); [|reflexivity].
    destruct (ReadFile w (rootCert rp)) as [pem|e]; [|reflexivity].
    destruct (negb (negb (Nat.eqb (length (certsOfPEM w pem)) 0)));
      [reflexivity|].
    destruct (LoadX509KeyPair w (serverCert rp) (serverKey rp)) as [c|e];
      [|reflexivity].
    simpl. destruct (bindAddr w (listenAddr rp)); reflexivity.
Qed.

Lemma Start_kind (w : World) (rp : RProxy) (ln : Listener) :
  snd (Start w rp) = inr ln ->
  (listenProto rp = "tcp" /\ snd (startTCP w rp) = inr ln) \/
  (listenProto rp = "tls" /\ snd (startTLS w rp) = inr ln).
Proof.
  unfold Start.
  destruct (String.eqb_spec (listenProto rp) "tcp") as [E|E]; [auto|].
  destruct (String.eqb_spec (listenProto rp) "tls") as [E'|E']; [auto|].
  discriminate.
Qed.

(** [Start] gets to the accept loop exactly when the listen kind is "tcp"
    and the address resolves and binds, or the listen kind is "tls" and
    the root file is readable and holds a certificate, the server pair
    loads and the address binds; the listener it then accepts from is
    determined by these answers. *)
Theorem Start_enters_accept_loop_iff :
  forall (w : World) (rp : RProxy) (ln : Listener),
    snd (Start w rp) = inr ln <->
    (listenProto rp = "tcp" /\
     exists lAddr,
       ResolveTCPAddr w (listenAddr rp) = Ok lAddr /\
       bindAddr w lAddr = Ok tt /\
       ln = {| lnAddr := lAddr; lnTLS := None |}) \/
    (listenProto rp = "tls" /\
     exists rootPEM cert,
       ReadFile w (rootCert rp) = Ok rootPEM /\
       certsOfPEM w rootPEM <> [] /\
       LoadX509KeyPair w (serverCert rp) (serverKey rp) = Ok cert /\
       bindAddr w (listenAddr rp) = Ok tt /\
       ln = {| lnAddr := listenAddr rp;
               lnTLS := Some (serverConfig (certsOfPEM w rootPEM) cert) |}).
Proof.
  intros w rp ln. split.
  - intros HS. destruct (Start_kind w rp ln HS) as [[Hp H]|[Hp H]].
    + left. split; [exact Hp|]. unfold startTCP in H.
      destruct (ResolveTCPAddr w (listenAddr rp)) as [a|e]; [|discriminate].
      simpl in H. destruct (bindAddr w a) as [[]|e] eqn:EB; [|discriminate].
      simpl in H. injection H as <-. exists a. auto.
    + right. split; [exact Hp|].
      unfold startTLS, AppendCertsFromPEM in H.
      destruct (ReadFile w (rootCert rp)) as [pem|e]; [|discriminate].
      destruct (certsOfPEM w pem) as [|c cs] eqn:EC; [discriminate|].
      cbn [length Nat.eqb negb] in H.
      destruct (LoadX509KeyPair w (serverCert rp) (serverKey rp)) as [cert|e];
        [|discriminate].
      destruct (bindAddr w (listenAddr rp)) as [[]|e] eqn:EB; [|discriminate].
      simpl in H. injection H as <-. exists pem, cert. rewrite EC.
      repeat split; auto.
  - intros [[Hp (a & HR & HB & ->)]|[Hp (pem & cert & ER & EC & EL & EB & ->)]].
    + rewrite (Start_tcp w rp Hp). unfold startTCP. rewrite HR. simpl.
      rewrite HB. reflexivity.
    + rewrite (Start_tls w rp Hp). unfold startTLS, AppendCertsFromPEM.
      rewrite ER. destruct (certsOfPEM w pem) as [|c cs]; [congruence|].
      cbn [length Nat.eqb negb]. rewrite EL, EB. reflexivity.
Qed.

Lemma Start_enters_accept_loop_iff_witness :
  snd (Start Sample.w0 (Sample.config "tls" "tcp"))
  = inr {| lnAddr := "127.0.0.1:9000";
           lnTLS := Some Sample.theServerConfig |}.
Proof.
  apply Start_enters_accept_loop_iff. right. split; [reflexivity|].
  exists "PEM", Sample.idCert. repeat split; try reflexivity. discriminate.
Defined.

(** When the start-up code of [Start] fails, the process is over: under
    every schedule nothing is accepted, no Session exists and the state is
    the one the failure left. *)
Theorem Start_failure_serves_nothing :
  forall (w : World) (rp : RProxy) (a : Abort),
    snd (Start w rp) = inl a ->
    forall pis,
      run w rp pis = boot w rp /\
      p_sessions (run w rp pis) = [] /\
      p_abort (run w rp pis) = Some (None, a) /\
      forall who e,
        In (who, e) (p_trace (run w rp pis)) ->
        who = None /\ isStartupEvent e = true.
Proof.
  intros w rp a HS pis.
  pose proof (Start_events_startup w rp) as HE.
  assert (HB : boot w rp
               = {| p_ln := None; p_sessions := [];
                    p_trace := tagMain (fst (Start w rp));
                    p_abort := Some (None, a) |}).
  { unfold boot. destruct (Start w rp) as [evs [a'|ln]]; simpl in *;
      congruence. }
  assert (HR : run w rp pis = boot w rp).
  { unfold run. apply prun_aborted. rewrite HB. discriminate. }
  rewrite HR. split; [reflexivity|]. rewrite HB. simpl.
  split; [reflexivity|]. split; [reflexivity|].
  intros who e Hin. unfold tagMain in Hin. apply in_map_iff in Hin.
  destruct Hin as (e' & He & Hin). injection He as <- <-.
  split; [reflexivity|]. rewrite forallb_forall in HE. apply HE, Hin.
Qed.

Lemma Start_failure_serves_nothing_witness :
  p_sessions (run Sample.wBusy (Sample.config "tcp" "tcp")
                  Sample.relaySchedule) = [].
Proof.
  apply (Start_failure_serves_nothing Sample.wBusy (Sample.config "tcp" "tcp")
           (Panic "address already in use")).
  reflexivity.
Defined.

(** ** What a Session does and does not do *)

Lemma copyStep_noCredentialRead (w : World) (src dst : Side) (pc : CopyPC)
    (inp : Input) (s : Session) :
  forallb (fun e => negb (isCredentialRead e))
          (snd (copyStep w src dst pc inp s)) = true.
Proof. destruct pc; unfold copyStep; repeat break_if; reflexivity. Qed.

Lemma PlainInv_step (w : World) (rp : RProxy) (t : list Event) (s : Session)
    (inp : Input) :
  backendProto rp = "tcp" ->
  PlainInv t s ->
  PlainInv (t ++ o_events (sstep w rp inp s)) (o_sess (sstep w rp inp s)).
Proof.
  intros Hp [Ht Hpc]. unfold PlainInv. rewrite forallb_app, Ht.
  unfold sstep. destruct (i_who inp).
  - unfold serveStep. destruct (s_pc s) as [| | |roots|cfg|e|c|e|a] eqn:E;
      try contradiction.
    + rewrite Hp. simpl. auto.
    + simpl. destruct (i_dial inp); simpl; auto.
    + simpl. auto.
    + pose proof (copyStep_noCredentialRead w Back Front c inp s) as HN.
      destruct (copyStep w Back Front c inp s) as [[c' s'] evs].
      simpl in *. rewrite HN. auto.
    + simpl. rewrite E. auto.
    + simpl. rewrite E. auto.
  - unfold copierStep. destruct (s_go s) as [g|]; [|simpl; auto].
    pose proof (copyStep_noCredentialRead w Front Back g inp s) as HN.
    pose proof (copyStep_frame w Front Back g inp s) as HF.
    destruct (copyStep w Front Back g inp s) as [[g' s'] evs].
    destruct HF as (HFp & _). simpl in *. rewrite HN, HFp. auto.
Qed.

(** Over a plain backend no Session ever reads the root file or loads a
    certificate pair; over a plain listener as well, the whole process
    never does: a plain-to-plain proxy does not look at the five
    credential paths. *)
Theorem plain_backend_reads_no_credentials :
  forall (w : World) (rp : RProxy) (pis : list PInput),
    backendProto rp = "tcp" ->
    (forall k e,
       In (Some k, e) (p_trace (run w rp pis)) -> isCredentialRead e = false) /\
    (listenProto rp = "tcp" ->
     forall who e,
       In (who, e) (p_trace (run w rp pis)) -> isCredentialRead e = false).
Proof.
  intros w rp pis Hp.
  pose proof (PInv_run w rp PlainInv
                (fun ln peer _ => conj eq_refl I)
                (fun t s inp => PlainInv_step w rp t s inp Hp) pis) as HP.
  assert (HS : forall k e,
             In (Some k, e) (p_trace (run w rp pis)) ->
             isCredentialRead e = false).
  { intros k e Hin. apply sessTrace_In in Hin.
    destruct (p_sessions (run w rp pis) !! k) as [s|] eqn:Hk.
    - destruct (inv_sess _ _ _ _ HP k s Hk) as [Ht _].
      rewrite forallb_forall in Ht. specialize (Ht _ Hin).
      destruct (isCredentialRead e); [discriminate|reflexivity].
    - apply lookup_ge_None in Hk.
      rewrite (inv_fresh _ _ _ _ HP k Hk) in Hin. destruct Hin. }
  split; [exact HS|].
  intros Hl [k|] e Hin; [exact (HS k e Hin)|].
  clear HS HP. revert Hin. unfold run.
  assert (HB : forall e', In (None, e') (p_trace (boot w rp)) ->
                          isCredentialRead e' = false).
  { intros e'. unfold boot. rewrite (Start_tcp w rp Hl). unfold startTCP.
    destruct (ResolveTCPAddr w (listenAddr rp)) as [a|x]; simpl.
    - destruct (bindAddr w a) as [[]|x]; simpl;
        intros [H|[H|[]]]; injection H as <-; reflexivity.
    - intros [H|[]]. injection H as <-. reflexivity. }
  generalize dependent (boot w rp). induction pis as [|pi pis IH];
    intros p HB Hin; [exact (HB e Hin)|].
  apply (IH (pstep w rp p pi)); [|exact Hin].
  intros e' Hin'. unfold pstep in Hin'.
  destruct (p_abort p); [exact (HB e' Hin')|].
  destruct pi as [r|j inp].
  - destruct (p_ln p) as [ln|]; [|exact (HB e' Hin')].
    destruct r as [peer|x]; simpl in Hin'; apply in_app_or in Hin';
      destruct Hin' as [H|H]; try exact (HB e' H);
      simpl in H; destruct H as [H|[H|[]]]; injection H as <-; reflexivity.
  - destruct (p_sessions p !! j) as [s|]; [|exact (HB e' Hin')].
    simpl in Hin'. apply in_app_or in Hin'. destruct Hin' as [H|H];
      [exact (HB e' H)|].
    unfold tagSess in H. apply in_map_iff in H.
    destruct H as (x & Hx & _). discriminate.
Qed.

Lemma plain_backend_reads_no_credentials_witness :
  In (Some 0, EvDial Sample.tcpDial)
     (p_trace (run Sample.w0 (Sample.config "tls" "tcp") Sample.noCertPeer)) /\
  isCredentialRead (EvDial Sample.tcpDial) = false.
Proof.
  assert (H : In (Some 0, EvDial Sample.tcpDial)
                 (p_trace (run Sample.w0 (Sample.config "tls" "tcp")
                               Sample.noCertPeer))).
  { vm_compute. tauto. }
  split; [exact H|].
  destruct (plain_backend_reads_no_credentials Sample.w0
              (Sample.config "tls" "tcp") Sample.noCertPeer eq_refl)
    as [HS _].
  apply (HS 0 _ H).
Defined.

(** Every dial of every run goes over "tcp" to the backend address of the
    configuration, and a Session dials at most once: there is no second
    attempt and no other destination. *)
Theorem session_dials_configured_backend_once :
  forall (w : World) (rp : RProxy) (pis : list PInput) (k : nat),
    length (List.filter isDial
                   (sessTrace k (p_trace (run w rp pis)))) <= 1 /\
    forall req,
      In (Some k, EvDial req) (p_trace (run w rp pis)) ->
      dNetwork req = "tcp" /\ dAddr req = backendAddr rp.
Proof.
  intros w rp pis k. split.
  - pose proof (PInv_run w rp (SessInv w rp)
                  (fun ln peer _ => SessInv_init w rp ln peer)
                  (SessInv_step w rp) pis) as HP.
    destruct (p_sessions (run w rp pis) !! k) as [s|] eqn:Hk.
    + destruct (inv_sess _ _ _ _ HP k s Hk) as [_ HT].
      assert (HN : forall t, forallb (fun e => negb (isDial e)) t = true ->
                             List.filter isDial t = []).
      { induction t as [|e t IH]; [reflexivity|]. simpl.
        intros H. apply andb_true_iff in H as [He Ht].
        destruct (isDial e); [discriminate|]. apply IH, Ht. }
      assert (HD : dialed w rp (sessTrace k (p_trace (run w rp pis))) ->
                   length (List.filter isDial
                             (sessTrace k (p_trace (run w rp pis)))) <= 1).
      { intros (rest & Hr & [[_ ->]|(_ & cfg & _ & ->)]);
          simpl; rewrite (HN rest Hr); simpl; lia. }
      unfold TraceInv in HT.
      destruct (s_pc s) as [| | |roots|cfg|e|c|e|a]; try (apply HD, HT).
      * rewrite HT. simpl. lia.
      * destruct HT as [-> _]. simpl. lia.
      * destruct HT as [-> _]. simpl. lia.
      * destruct HT as [-> _]. simpl. lia.
      * destruct HT as [-> _]. simpl. lia.
      * rewrite (HN _ HT). simpl. lia.
    + apply lookup_ge_None in Hk.
      rewrite (inv_fresh _ _ _ _ HP k Hk). simpl. lia.
  - intros req Hin.
    destruct (dial_in_trace w rp pis k req Hin) as [Hd Hi].
    destruct (dialed_In w rp _ req Hd Hi)
      as [[_ ->]|(_ & cfg & rest & _ & -> & _)]; split; reflexivity.
Qed.

Lemma session_dials_configured_backend_once_witness :
  In (Some 1, EvDial Sample.tlsDial)
     (p_trace (run Sample.w0 (Sample.config "tcp" "tls") Sample.twoSessions)) /\
  dAddr Sample.tlsDial = "127.0.0.1:9001".
Proof.
  assert (H : In (Some 1, EvDial Sample.tlsDial)
                 (p_trace (run Sample.w0 (Sample.config "tcp" "tls")
                               Sample.twoSessions))).
  { vm_compute. tauto. }
  split; [exact H|].
  apply (session_dials_configured_backend_once Sample.w0
           (Sample.config "tcp" "tls") Sample.twoSessions 1), H.
Defined.




(** Once a connection of a Session is closed, no step of the Session
    writes to it again or reopens it, in any state a run reaches. *)
Theorem closed_connection_gets_no_more_bytes :
  forall (w : World) (rp : RProxy) (pis : list PInput) (k : nat)
         (s : Session) (inp : Input) (sd : Side) (c : Conn),
    p_sessions (run w rp pis) !! k = Some s ->
    getConn s sd = Some c ->
    c_closed c = true ->
    exists c',
      getConn (o_sess (sstep w rp inp s)) sd = Some c' /\
      c_closed c' = true /\ c_sent c' = c_sent c.
Proof.
  intros w rp pis k s inp sd c Hk Hc Hcl.
  pose proof (run_sessions_inv w rp (fun _ s => CloseInv s)
                (fun ln peer _ => CloseInv_init ln peer)
                (fun t s inp H => CloseInv_step w rp inp s H) pis k s Hk) as HI.
  simpl in HI. unfold CloseInv in HI. clear Hk.
  assert (HCopy : forall src dst pc,
            exists c',
              getConn (snd (fst (copyStep w src dst pc inp s))) sd = Some c' /\
              c_closed c' = true /\ c_sent c' = c_sent c).
  { intros src dst pc. clear HI.
    destruct s as [p g [hf cf sf] [[hb cb sb]|] srv peer];
      destruct sd; simpl in Hc; try discriminate;
      injection Hc as <-; simpl in Hcl; subst;
      destruct pc, src, dst; simpl;
      repeat (break_if; simpl);
      eexists; repeat split;
      rewrite ?doHandshake_closed, ?doHandshake_sent; simpl;
      try reflexivity; try congruence. }
  assert (HB : s_back s = None -> sd = Front).
  { intros Hb. destruct sd; [reflexivity|]. simpl in Hc. congruence. }
  unfold sstep. destruct (i_who inp).
  - unfold serveStep. destruct (s_pc s) as [| | |roots|cfg|e|pc|e|a].
    + repeat break_if; simpl; eauto.
    + destruct HI as [Hb _]. rewrite (HB Hb) in *.
      destruct (i_dial inp) as [[]|e]; simpl; eauto.
    + repeat break_if; simpl; eauto.
    + repeat break_if; simpl; eauto.
    + destruct HI as [Hb _]. rewrite (HB Hb) in *.
      destruct (i_dial inp) as [[]|e]; simpl; eauto.
    + unfold mapConn. destruct sd; simpl in *.
      * injection Hc as <-. simpl. eauto.
      * rewrite Hc. eauto.
    + specialize (HCopy Back Front pc).
      destruct (copyStep w Back Front pc inp s) as [[c' s'] evs].
      simpl in *. destruct HCopy as (c1 & H1 & H2). exists c1.
      split; [|exact H2]. destruct sd; exact H1.
    + simpl. eauto.
    + simpl. eauto.
  - unfold copierStep. destruct (s_go s) as [g|]; [|simpl; eauto].
    specialize (HCopy Front Back g).
    destruct (copyStep w Front Back g inp s) as [[c' s'] evs].
    simpl in *. destruct HCopy as (c1 & H1 & H2). exists c1.
    split; [|exact H2]. destruct sd; exact H1.
Qed.

Lemma closed_connection_gets_no_more_bytes_witness :
  exists c',
    getConn (o_sess (sstep Sample.w0 (Sample.config "tcp" "tcp")
                           Sample.copier Sample.relayEnd)) Back = Some c' /\
    c_closed c' = true /\ c_sent c' = ["ping"].
Proof.
  apply (closed_connection_gets_no_more_bytes Sample.w0
           (Sample.config "tcp" "tcp") Sample.relaySchedule 0 Sample.relayEnd
           Sample.copier Back
           {| c_hs := HSPlain; c_closed := true; c_sent := ["ping"] |});
    reflexivity.
Defined.

(** ** Close propagation *)

Lemma srun_cons_alive (w : World) (rp : RProxy) (inp : Input)
    (rest : list Input) (s : Session) :
  o_abort (sstep w rp inp s) = None ->
  srun w rp (inp :: rest) s
  = {| o_sess := o_sess (srun w rp rest (o_sess (sstep w rp inp s)));
       o_events := o_events (sstep w rp inp s)
                   ++ o_events (srun w rp rest (o_sess (sstep w rp inp s)));
       o_abort := o_abort (srun w rp rest (o_sess (sstep w rp inp s))) |}.
Proof. intros H. cbn [srun]. rewrite H. reflexivity. Qed.

(** With both connections closed a copy step reads nothing and writes
    nothing: it goes on to the closes and the return. *)
Lemma copyStep_both_closed (w : World) (src dst : Side) (pc : CopyPC)
    (inp : Input) (s : Session) :
  isClosed s Front = true -> isClosed s Back = true ->
  (src = Front /\ dst = Back \/ src = Back /\ dst = Front) ->
  fst (fst (copyStep w src dst pc inp s)) = afterClose pc /\
  forallb (fun e => negb (isWrite e)) (snd (copyStep w src dst pc inp s))
  = true.
Proof.
  intros HF HB Hdir.
  destruct s as [p g [hf cf sf] [[hb cb sb]|] srv peer];
    unfold isClosed in *; simpl in *; [|discriminate]. subst.
  destruct Hdir as [[-> ->]|[-> ->]]; destruct pc; simpl; auto.
Qed.

Lemma copier_step_both_closed (w : World) (rp : RProxy) (inp : Input)
    (s : Session) (g : CopyPC) :
  i_who inp = Copier -> s_go s = Some g ->
  isClosed s Front = true -> isClosed s Back = true ->
  o_abort (sstep w rp inp s) = None /\
  s_go (o_sess (sstep w rp inp s)) = Some (afterClose g) /\
  s_pc (o_sess (sstep w rp inp s)) = s_pc s /\
  isClosed (o_sess (sstep w rp inp s)) Front = true /\
  isClosed (o_sess (sstep w rp inp s)) Back = true /\
  forallb (fun e => negb (isWrite e)) (o_events (sstep w rp inp s)) = true.
Proof.
  intros Hw Hg HF HB. unfold sstep, copierStep. rewrite Hw, Hg.
  pose proof (copyStep_both_closed w Front Back g inp s HF HB
                (or_introl (conj eq_refl eq_refl))) as [H1 H2].
  pose proof (copyStep_frame w Front Back g inp s) as HFr.
  pose proof (copyStep_closed_mono w Front Back g inp s Front HF) as HF'.
  pose proof (copyStep_closed_mono w Front Back g inp s Back HB) as HB'.
  destruct (copyStep w Front Back g inp s) as [[g' s'] evs].
  simpl in *. destruct HFr as (HFp & _). subst g'.
  repeat split; auto.
Qed.

Lemma serving_step_both_closed (w : World) (rp : RProxy) (inp : Input)
    (s : Session) (c : CopyPC) :
  i_who inp = Serving -> s_pc s = PRelay c ->
  isClosed s Front = true -> isClosed s Back = true ->
  o_abort (sstep w rp inp s) = None /\
  s_pc (o_sess (sstep w rp inp s)) = PRelay (afterClose c) /\
  s_go (o_sess (sstep w rp inp s)) = s_go s /\
  isClosed (o_sess (sstep w rp inp s)) Front = true /\
  isClosed (o_sess (sstep w rp inp s)) Back = true /\
  forallb (fun e => negb (isWrite e)) (o_events (sstep w rp inp s)) = true.
Proof.
  intros Hw Hpc HF HB. unfold sstep, serveStep. rewrite Hw, Hpc.
  pose proof (copyStep_both_closed w Back Front c inp s HF HB
                (or_intror (conj eq_refl eq_refl))) as [H1 H2].
  pose proof (copyStep_frame w Back Front c inp s) as HFr.
  pose proof (copyStep_closed_mono w Back Front c inp s Front HF) as HF'.
  pose proof (copyStep_closed_mono w Back Front c inp s Back HB) as HB'.
  destruct (copyStep w Back Front c inp s) as [[c' s'] evs].
  simpl in *. destruct HFr as (_ & HFg & _). subst c'.
  repeat split; auto.
Qed.

Lemma afterClose_thrice (pc : CopyPC) :
  afterClose (afterClose (afterClose pc)) = CDone.
Proof. destruct pc; reflexivity. Qed.

(** Close propagation.  In every state a run reaches: once one goroutine
    of a Relay has returned, the other one, wherever it stands in its loop
    and whatever the network answers, leaves the loop at its next step
    without relaying anything and has returned after three steps of its
    own. *)
Theorem other_loop_returns_after_close :
  forall (w : World) (rp : RProxy) (pis : list PInput) (k : nat)
         (s : Session) (i1 i2 i3 : Input),
    p_sessions (run w rp pis) !! k = Some s ->
    (s_pc s = PRelay CDone ->
     i_who i1 = Copier -> i_who i2 = Copier -> i_who i3 = Copier ->
     let o := srun w rp [i1; i2; i3] s in
     o_abort o = None /\ s_go (o_sess o) = Some CDone /\
     s_pc (o_sess o) = PRelay CDone /\
     forallb (fun e => negb (isWrite e)) (o_events o) = true) /\
    (s_go s = Some CDone ->
     i_who i1 = Serving -> i_who i2 = Serving -> i_who i3 = Serving ->
     let o := srun w rp [i1; i2; i3] s in
     o_abort o = None /\ s_pc (o_sess o) = PRelay CDone /\
     s_go (o_sess o) = Some CDone /\
     forallb (fun e => negb (isWrite e)) (o_events o) = true).
Proof.
  intros w rp pis k s i1 i2 i3 Hk.
  pose proof (run_sessions_inv w rp (fun _ s => CloseInv s)
                (fun ln peer _ => CloseInv_init ln peer)
                (fun t s inp H => CloseInv_step w rp inp s H) pis k s Hk) as HI.
  simpl in HI. unfold CloseInv in HI. split.
  - intros Hpc H1 H2 H3. rewrite Hpc in HI.
    destruct HI as (_ & [HF HB] & g & Hg & _).
    destruct (copier_step_both_closed w rp i1 s g H1 Hg HF HB)
      as (A1 & G1 & P1 & F1 & B1 & W1).
    destruct (copier_step_both_closed w rp i2 _ _ H2 G1 F1 B1)
      as (A2 & G2 & P2 & F2 & B2 & W2).
    destruct (copier_step_both_closed w rp i3 _ _ H3 G2 F2 B2)
      as (A3 & G3 & P3 & F3 & B3 & W3).
    rewrite (srun_cons_alive w rp i1 _ s A1).
    rewrite (srun_cons_alive w rp i2 _ _ A2).
    rewrite (srun_cons_alive w rp i3 _ _ A3).
    cbn [srun goOn o_sess o_events o_abort].
    rewrite G3, afterClose_thrice, P3, P2, P1, Hpc.
    rewrite !forallb_app, W1, W2, W3. auto.
  - intros Hg H1 H2 H3.
    destruct (s_pc s) as [| | |roots|cfg|e|c|e|a] eqn:Hpc;
      try (exfalso; clear - HI Hg; intuition congruence).
    destruct HI as (_ & _ & g & Hg' & HC).
    assert (g = CDone) as -> by congruence. destruct HC as [HF HB].
    destruct (serving_step_both_closed w rp i1 s c H1 Hpc HF HB)
      as (A1 & P1 & G1 & F1 & B1 & W1).
    destruct (serving_step_both_closed w rp i2 _ _ H2 P1 F1 B1)
      as (A2 & P2 & G2 & F2 & B2 & W2).
    destruct (serving_step_both_closed w rp i3 _ _ H3 P2 F2 B2)
      as (A3 & P3 & G3 & F3 & B3 & W3).
    rewrite (srun_cons_alive w rp i1 _ s A1).
    rewrite (srun_cons_alive w rp i2 _ _ A2).
    rewrite (srun_cons_alive w rp i3 _ _ A3).
    cbn [srun goOn o_sess o_events o_abort].
    rewrite P3, afterClose_thrice, G3, G2, G1, Hg.
    rewrite !forallb_app, W1, W2, W3. auto.
Qed.

Lemma other_loop_returns_after_close_witness :
  p_sessions (run Sample.w0 (Sample.config "tcp" "tcp") Sample.halfClosed)
    !! 0 = Some Sample.halfClosedSession /\
  s_go (o_sess (srun Sample.w0 (Sample.config "tcp" "tcp")
                     [Sample.copier; Sample.copier; Sample.copier]
                     Sample.halfClosedSession)) = Some CDone.
Proof.
  assert (H : p_sessions (run Sample.w0 (Sample.config "tcp" "tcp")
                              Sample.halfClosed) !! 0
              = Some Sample.halfClosedSession) by reflexivity.
  split; [exact H|].
  destruct (other_loop_returns_after_close Sample.w0
              (Sample.config "tcp" "tcp") Sample.halfClosed 0
              Sample.halfClosedSession Sample.copier Sample.copier
              Sample.copier H) as [HA _].
  apply HA; reflexivity.
Defined.

(** ** Before the dial *)

Lemma PreDialInv_init (ln : Listener) (peer : option Cert) :
  PreDialInv (newSession ln peer).
Proof. intros _. repeat split. Qed.

Lemma PreDialInv_step (w : World) (rp : RProxy) (inp : Input) (s : Session) :
  PreDialInv s -> PreDialInv (o_sess (sstep w rp inp s)).
Proof.
  intros HI. unfold PreDialInv in *. unfold sstep.
  destruct (i_who inp).
  - unfold serveStep. destruct (s_pc s) as [| | |roots|cfg|e|c|e|a] eqn:E.
    + specialize (HI eq_refl).
      destruct (String.eqb (backendProto rp) "tcp");
        [|destruct (String.eqb (backendProto rp) "tls")];
        simpl; intros _; exact HI.
    + specialize (HI eq_refl). destruct (i_dial inp); simpl; discriminate.
    + specialize (HI eq_refl).
      destruct (ReadFile w (rootCert rp)) as [pem|x];
        [destruct (AppendCertsFromPEM w pem) as [[|] roots]|];
        simpl; intros _; exact HI.
    + specialize (HI eq_refl).
      destruct (LoadX509KeyPair w (clientCert rp) (clientKey rp));
        simpl; intros _; exact HI.
    + specialize (HI eq_refl). destruct (i_dial inp); simpl; discriminate.
    + simpl. discriminate.
    + destruct (copyStep w Back Front c inp s) as [[c' s'] evs].
      simpl. discriminate.
    + simpl. rewrite E. discriminate.
    + simpl. rewrite E. exact HI.
  - unfold copierStep. destruct (s_go s) as [g|] eqn:Eg.
    + pose proof (copyStep_frame w Front Back g inp s) as HF.
      destruct (copyStep w Front Back g inp s) as [[g' s'] evs].
      destruct HF as (HFp & _). simpl. rewrite HFp. intros Hb.
      destruct (HI Hb) as [Hg _]. discriminate.
    + simpl. rewrite Eg. exact HI.
Qed.

(** Until the backend dial has returned, a Session has done nothing with
    the accepted connection: it is open, nothing was written to it, the
    handshake of an encrypted listen side has not been run, and there is
    no backend connection and no second goroutine.  That also holds of a
    Session that died in [serve] or [serveTLS]: it leaves the accepted
    connection unclosed. *)
Theorem accepted_connection_untouched_before_dial :
  forall (w : World) (rp : RProxy) (pis : list PInput) (k : nat) (s : Session),
    p_sessions (run w rp pis) !! k = Some s ->
    beforeRelay (s_pc s) = true ->
    s_go s = None /\ s_back s = None /\
    c_closed (s_front s) = false /\ c_sent (s_front s) = [] /\
    c_hs (s_front s) = match s_srv s with
                       | Some _ => HSPending
                       | None => HSPlain
                       end.
Proof.
  intros w rp pis k s Hk Hb.
  pose proof (run_sessions_inv w rp (fun _ s => PreDialInv s)
                (fun ln peer _ => PreDialInv_init ln peer)
                (fun t s inp H => PreDialInv_step w rp inp s H) pis k s Hk) as HI.
  destruct (HI Hb) as (Hg & Hbk & Hf). rewrite Hf. simpl. auto.
Qed.

Lemma accepted_connection_untouched_before_dial_witness :
  p_sessions (run Sample.wNoClientPair (Sample.config "tls" "tls")
                  [PAccept (Ok None); PSess 0 Sample.serving;
                   PSess 0 Sample.serving; PSess 0 Sample.serving])
    !! 0
  = Some {| s_pc := PAborted (Panic "failed to load client tls certificate");
            s_go := None;
            s_front := {| c_hs := HSPending; c_closed := false;
                          c_sent := [] |};
            s_back := None; s_srv := Some Sample.theServerConfig;
            s_peer := None |} /\
  c_closed {| c_hs := HSPending; c_closed := false; c_sent := [] |} = false.
Proof.
  assert (H : p_sessions (run Sample.wNoClientPair (Sample.config "tls" "tls")
                  [PAccept (Ok None); PSess 0 Sample.serving;
                   PSess 0 Sample.serving; PSess 0 Sample.serving]) !! 0
    = Some {| s_pc := PAborted (Panic "failed to load client tls certificate");
              s_go := None;
              s_front := {| c_hs := HSPending; c_closed := false;
                            c_sent := [] |};
              s_back := None; s_srv := Some Sample.theServerConfig;
              s_peer := None |}) by reflexivity.
  split; [exact H|].
  apply (accepted_connection_untouched_before_dial _ _ _ _ _ H).
  reflexivity.
Defined.

(** ** [NewRProxy] on what it has stored *)









(** * Properties of the test server *)

(** ** Logs *)

Lemma linesOf_app (a b : list TestServer.TEvent) :
  TestServer.linesOf (a ++ b) = TestServer.linesOf a ++ TestServer.linesOf b.
Proof.
  induction a as [|e a IH]; [reflexivity|].
  destruct e; simpl; rewrite IH; reflexivity.
Qed.

Lemma takenOf_app (a b : list TestServer.TEvent) :
  TestServer.takenOf (a ++ b) = TestServer.takenOf a ++ TestServer.takenOf b.
Proof.
  induction a as [|e a IH]; [reflexivity|].
  destruct e; simpl; rewrite IH; reflexivity.
Qed.

Lemma takenBy_app (k : nat) (a b : list TestServer.TEvent) :
  TestServer.takenBy k (a ++ b)
  = TestServer.takenBy k a ++ TestServer.takenBy k b.
Proof.
  induction a as [|e a IH]; [reflexivity|].
  destruct e; simpl; rewrite ?IH; try reflexivity.
  destruct (Nat.eqb k0 k); simpl; rewrite ?IH; reflexivity.
Qed.

Lemma printedBy_app (k : nat) (a b : list TestServer.TEvent) :
  TestServer.printedBy k (a ++ b)
  = TestServer.printedBy k a ++ TestServer.printedBy k b.
Proof.
  induction a as [|e a IH]; [reflexivity|].
  destruct e; simpl; rewrite ?IH; try reflexivity.
  destruct (Nat.eqb k0 k); simpl; rewrite ?IH; reflexivity.
Qed.

(** ** One step of a goroutine of a connection *)

Ltac not_closed cl Hc :=
  let H := fresh in
  assert (H : cl = false)
    by (destruct cl; [destruct Hc as [Hc _]; specialize (Hc eq_refl);
                      discriminate | reflexivity]);
  subst cl.

Lemma handleConn_ConnInv (w : World) (srv : option TLSConfig) (k : nat)
    (env : TestServer.TEnv) (stdin : list string) (c : TestServer.TConn) :
  TestServer.ConnInv c ->
  TestServer.ConnInv
    (TestServer.to_conn (TestServer.handleConn w srv k env stdin c)).
Proof.
  intros [Hq He Hg Hc].
  destruct c as [pc r [hs cl sent] peer q]; simpl in *.
  destruct pc; simpl in *.
  - not_closed cl Hc. destruct Hg as (Hr & Hs & Hq0 & Hh). subst r sent q.
    destruct Hh as [Hh|Hh]; subst hs; simpl;
      constructor; simpl; auto; try lia; split; discriminate.
  - not_closed cl Hc. destruct Hg as (Hr & Hs & Hq0 & Hh). subst r sent q hs.
    unfold TestServer.handleConn, doHandshake. simpl.
    repeat break_if; simpl in *; try discriminate;
      constructor; simpl; auto; try lia;
      try (split; discriminate).
  - not_closed cl Hc. destruct Hg as [-> Hr].
    unfold TestServer.handleConn, TestServer.write. simpl.
    destruct stdin as [|m rest]; repeat break_if; simpl;
      constructor; simpl in *; auto; try lia;
      try (split; discriminate);
      try (apply Nat.ltb_lt in Heqb; lia).
    all: try (apply andb_true_iff in Heqb as [Heqb _];
              apply Nat.ltb_lt in Heqb; lia).
  - not_closed cl Hc. destruct Hg as [-> Hr].
    unfold TestServer.handleConn, TestServer.write. simpl.
    repeat break_if; simpl; constructor; simpl in *; auto; try lia;
      try (split; discriminate).
  - not_closed cl Hc. destruct Hg as [-> Hr].
    unfold TestServer.handleConn, TestServer.write. simpl.
    repeat break_if; simpl; constructor; simpl in *; auto; try lia;
      try (split; discriminate).
  - destruct Hg as [-> Hr]. constructor; simpl in *; auto; try lia.
    split; reflexivity.
  - constructor; simpl in *; auto.
Qed.

Lemma read_ConnInv (k : nat) (env : TestServer.TEnv) (stdin : list string)
    (c : TestServer.TConn) :
  TestServer.ConnInv c ->
  TestServer.ConnInv (TestServer.to_conn (TestServer.read k env stdin c)).
Proof.
  intros [Hq He Hg Hc].
  destruct c as [pc r conn peer q]; simpl in *.
  unfold TestServer.read. simpl.
  destruct r as [[| |]|]; simpl.
  - destruct (TestServer.readError env conn) as [[|e]|]; simpl;
      constructor; simpl; auto.
    destruct pc; simpl in *; try (destruct Hg as (Hr & _); discriminate);
      destruct Hg as [Hh _]; split; auto; discriminate.
  - destruct (Nat.ltb_spec q TestServer.quitCap) as [Hlt|Hge]; simpl.
    + constructor; simpl in *; auto; try lia.
      * destruct pc; simpl in *; auto; lia.
      * destruct pc; simpl in *; try (destruct Hg as (Hr & _); discriminate);
          destruct Hg as [Hh _]; split; auto; discriminate.
    + constructor; simpl; auto.
  - constructor; simpl; auto.
  - constructor; simpl; auto.
Qed.

(** Which events a step of connection [k] logs, and what it does to the
    channel stdin. *)
Lemma handleConn_log (w : World) (srv : option TLSConfig) (k : nat)
    (env : TestServer.TEnv) (stdin : list string) (c : TestServer.TConn) :
  let o := TestServer.handleConn w srv k env stdin c in
  TestServer.linesOf (TestServer.to_log o) = [] /\
  TestServer.takenOf (TestServer.to_log o) ++ TestServer.to_stdin o = stdin /\
  TestServer.printedBy k (TestServer.to_log o) = [] /\
  TestServer.takenBy k (TestServer.to_log o)
  = TestServer.takenOf (TestServer.to_log o) /\
  forall j, j <> k ->
    TestServer.takenBy j (TestServer.to_log o) = [] /\
    TestServer.printedBy j (TestServer.to_log o) = [].
Proof.
  unfold TestServer.handleConn, TestServer.write.
  destruct (TestServer.h_pc c); repeat break_if; simpl;
    rewrite ?Nat.eqb_refl; repeat split; auto; intros;
    try match goal with
        | H : ?j <> k |- _ => destruct (Nat.eqb_spec k j); [congruence|]
        end;
    auto.
Qed.

Lemma read_log (k : nat) (env : TestServer.TEnv) (stdin : list string)
    (c : TestServer.TConn) :
  let o := TestServer.read k env stdin c in
  TestServer.linesOf (TestServer.to_log o) = [] /\
  TestServer.takenOf (TestServer.to_log o) = [] /\
  TestServer.to_stdin o = stdin /\
  (forall j, TestServer.takenBy j (TestServer.to_log o) = []) /\
  forall j, j <> k -> TestServer.printedBy j (TestServer.to_log o) = [].
Proof.
  unfold TestServer.read.
  destruct (TestServer.h_read c) as [[| |]|]; repeat break_if; simpl;
    repeat split; auto; intros;
    try match goal with
        | H : ?j <> k |- _ => destruct (Nat.eqb_spec k j); [congruence|]
        end;
    auto.
Qed.

Lemma handleConn_SentInv (w : World) (srv : option TLSConfig) (k : nat)
    (env : TestServer.TEnv) (stdin : list string) (c : TestServer.TConn)
    (log : list TestServer.TEvent) :
  TestServer.ConnInv c ->
  TestServer.SentInv k log c ->
  let o := TestServer.handleConn w srv k env stdin c in
  TestServer.SentInv k (log ++ TestServer.to_log o) (TestServer.to_conn o).
Proof.
  intros [_ _ Hg _] HI. cbn zeta.
  unfold TestServer.SentInv in *.
  unfold TestServer.handleConn, TestServer.write.
  destruct c as [pc r [hs cl sent] peer q]; simpl in *.
  destruct pc; simpl in *.
  - destruct hs; simpl; rewrite ?app_nil_r; exact HI.
  - destruct Hg as (_ & Hs & _). subst sent.
    destruct (negb (c_closed (doHandshake w srv peer (TestServer.e_hs env)
                      {| c_hs := hs; c_closed := cl; c_sent := [] |}))
              && handshaken (doHandshake w srv peer (TestServer.e_hs env)
                      {| c_hs := hs; c_closed := cl; c_sent := [] |}));
      simpl; rewrite app_nil_r; [|exact HI].
    rewrite doHandshake_sent. simpl. apply HI.
  - destruct stdin as [|m rest].
    + destruct (0 <? q)%nat; simpl; rewrite app_nil_r; auto.
    + destruct ((0 <? q)%nat && TestServer.e_quitFirst env); simpl.
      * rewrite app_nil_r. auto.
      * rewrite takenBy_app. simpl. rewrite Nat.eqb_refl, HI. reflexivity.
  - destruct (negb cl && handshaken
                {| c_hs := hs; c_closed := cl; c_sent := sent |}
              && TestServer.e_wok env); simpl.
    + rewrite takenBy_app. simpl. rewrite app_nil_r. exact HI.
    + rewrite app_nil_r. eauto.
  - destruct (q <? TestServer.quitCap)%nat; simpl; rewrite app_nil_r; auto.
  - rewrite app_nil_r. exact HI.
  - rewrite app_nil_r. exact HI.
Qed.

Lemma read_SentInv (k : nat) (env : TestServer.TEnv) (stdin : list string)
    (c : TestServer.TConn) (log : list TestServer.TEvent) :
  TestServer.ConnInv c ->
  TestServer.SentInv k log c ->
  let o := TestServer.read k env stdin c in
  TestServer.SentInv k (log ++ TestServer.to_log o) (TestServer.to_conn o).
Proof.
  intros [_ _ Hg _] HI. cbn zeta.
  unfold TestServer.SentInv in *. unfold TestServer.read.
  destruct c as [pc r conn peer q]; simpl in *.
  destruct r as [[| |]|]; simpl.
  - destruct (TestServer.readError env conn) as [[|e]|]; simpl;
      rewrite ?app_nil_r; try exact HI.
    rewrite takenBy_app, printedBy_app. simpl. rewrite app_nil_r.
    destruct pc; try exact HI; destruct Hg as [Hr _]; discriminate.
  - destruct (q <? TestServer.quitCap)%nat; simpl; rewrite app_nil_r;
      exact HI.
  - rewrite app_nil_r. exact HI.
  - rewrite app_nil_r. exact HI.
Qed.

Lemma SentInv_ext (k : nat) (log log' : list TestServer.TEvent)
    (c : TestServer.TConn) :
  TestServer.takenBy k log' = TestServer.takenBy k log ->
  TestServer.printedBy k log' = TestServer.printedBy k log ->
  TestServer.SentInv k log c -> TestServer.SentInv k log' c.
Proof.
  unfold TestServer.SentInv. intros -> ->. auto.
Qed.

Lemma ConnInv_new (ln : Listener) (peer : option Cert) :
  TestServer.ConnInv (TestServer.newTConn ln peer).
Proof.
  constructor; simpl; [lia|exact I| |split; discriminate].
  repeat split; auto. destruct (lnTLS ln); auto.
Qed.

(** ** Every state the test server reaches *)

Lemma TInv_boot (w : World) : TestServer.TInv w (TestServer.tboot w).
Proof.
  unfold TestServer.tboot.
  destruct (TestServer.main w) as [evs [a|ln]] eqn:E; constructor; simpl;
    try discriminate; try reflexivity; try lia; eauto;
    try (intros k c Hk; rewrite lookup_nil in Hk; discriminate).
  intros ln' H. injection H as <-. rewrite E. reflexivity.
Qed.

Lemma TInv_readStdin (w : World) (line : option string)
    (t : TestServer.TServer) :
  TestServer.TInv w t -> TestServer.TInv w (TestServer.readStdin line t).
Proof.
  intros [Hln Hrun Hc Hs Hf Hfifo Hcap]. unfold TestServer.readStdin.
  destruct (TestServer.t_scan t) as [|l|] eqn:Esc.
  - destruct line as [l|]; constructor; simpl; auto.
    + intros k c Hk. apply (SentInv_ext k (TestServer.t_log t));
        [rewrite takenBy_app|rewrite printedBy_app| ]; simpl;
        rewrite ?app_nil_r; auto.
    + intros k Hk. rewrite takenBy_app, printedBy_app. simpl.
      rewrite !app_nil_r. auto.
    + rewrite linesOf_app, takenOf_app, Hfifo. simpl.
      rewrite !app_nil_r. rewrite <- !app_assoc. reflexivity.
  - destruct (Nat.ltb_spec (length (TestServer.t_stdin t))
                           TestServer.stdinCap) as [Hlt|Hge].
    + constructor; simpl; auto.
      * rewrite Hfifo. simpl. rewrite app_nil_r. reflexivity.
      * rewrite length_app. simpl. lia.
    + constructor; auto. rewrite Esc. exact Hfifo.
  - constructor; auto. rewrite Esc. exact Hfifo.
Qed.

Lemma TInv_accept (w : World) (ln : Listener) (r : result (option Cert))
    (t : TestServer.TServer) :
  TestServer.t_ln t = Some ln ->
  TestServer.TInv w t -> TestServer.TInv w (TestServer.acceptRound ln r t).
Proof.
  intros Eln [Hln Hrun Hc Hs Hf Hfifo Hcap].
  destruct r as [peer|e]; constructor; simpl; auto; try discriminate.
  - intros k c Hk.
    destruct (decide (k < length (TestServer.t_conns t))) as [Hlt|Hge].
    + rewrite lookup_app_l in Hk by exact Hlt. eauto.
    + rewrite lookup_app_r in Hk by lia.
      destruct (k - length (TestServer.t_conns t)); simpl in Hk;
        [|discriminate]. injection Hk as <-. apply ConnInv_new.
  - intros k c Hk.
    destruct (decide (k < length (TestServer.t_conns t))) as [Hlt|Hge].
    + rewrite lookup_app_l in Hk by exact Hlt. eauto.
    + rewrite lookup_app_r in Hk by lia.
      destruct (k - length (TestServer.t_conns t)); simpl in Hk;
        [|discriminate]. injection Hk as <-.
      unfold TestServer.SentInv. simpl. apply Hf. lia.
  - intros k Hk. rewrite length_app in Hk. simpl in Hk. apply Hf. lia.
Qed.

Lemma TInv_applyOut (w : World) (k : nat) (c : TestServer.TConn)
    (o : TestServer.TOut) (t : TestServer.TServer) :
  TestServer.t_abort t = None ->
  TestServer.t_conns t !! k = Some c ->
  TestServer.ConnInv (TestServer.to_conn o) ->
  TestServer.SentInv k (TestServer.t_log t ++ TestServer.to_log o)
                     (TestServer.to_conn o) ->
  TestServer.linesOf (TestServer.to_log o) = [] ->
  TestServer.takenOf (TestServer.to_log o) ++ TestServer.to_stdin o
  = TestServer.t_stdin t ->
  (forall j, j <> k ->
     TestServer.takenBy j (TestServer.to_log o) = [] /\
     TestServer.printedBy j (TestServer.to_log o) = []) ->
  TestServer.TInv w t -> TestServer.TInv w (TestServer.applyOut k o t).
Proof.
  intros Hab Hk HC HS HL HT HO [Hln Hrun Hc Hs Hf Hfifo Hcap].
  assert (Hlt : k < length (TestServer.t_conns t)).
  { apply lookup_lt_Some in Hk. exact Hk. }
  constructor; simpl; auto.
  - intros j c' Hj. destruct (decide (k = j)) as [->|Hne].
    + rewrite list_lookup_insert_eq in Hj by exact Hlt.
      injection Hj as <-. exact HC.
    + rewrite list_lookup_insert_ne in Hj by exact Hne. eauto.
  - intros j c' Hj. destruct (decide (k = j)) as [->|Hne].
    + rewrite list_lookup_insert_eq in Hj by exact Hlt.
      injection Hj as <-. exact HS.
    + rewrite list_lookup_insert_ne in Hj by exact Hne.
      destruct (HO j (not_eq_sym Hne)) as [H1 H2].
      apply (SentInv_ext j (TestServer.t_log t));
        [rewrite takenBy_app, H1|rewrite printedBy_app, H2|];
        rewrite ?app_nil_r; eauto.
  - intros j Hj. rewrite length_insert in Hj.
    destruct (HO j ltac:(lia)) as [H1 H2].
    rewrite takenBy_app, printedBy_app, H1, H2, !app_nil_r. apply Hf, Hj.
  - rewrite linesOf_app, takenOf_app, HL, app_nil_r, Hfifo, <- HT.
    rewrite <- !app_assoc. reflexivity.
  - rewrite <- HT in Hcap. rewrite length_app in Hcap. lia.
Qed.

Lemma TInv_step (w : World) (t : TestServer.TServer) (ti : TestServer.TInput) :
  TestServer.TInv w t -> TestServer.TInv w (TestServer.tstep w t ti).
Proof.
  intros HI. unfold TestServer.tstep.
  destruct (TestServer.t_abort t) eqn:Hab; [exact HI|].
  destruct ti as [line|r|k env|k env].
  - apply TInv_readStdin, HI.
  - destruct (TestServer.t_ln t) as [ln|] eqn:Eln; [|exact HI].
    apply TInv_accept; assumption.
  - destruct (TestServer.t_conns t !! k) as [c|] eqn:Hk; [|exact HI].
    pose proof (TestServer.ti_conn _ _ HI k c Hk) as HC.
    pose proof (TestServer.ti_sent _ _ HI k c Hk) as HS.
    pose proof (handleConn_log w (TestServer.t_ln t ≫= lnTLS) k env
                  (TestServer.t_stdin t) c) as (L1 & L2 & L3 & L4 & L5).
    apply (TInv_applyOut w k c); auto.
    + apply handleConn_ConnInv, HC.
    + apply handleConn_SentInv; assumption.
  - destruct (TestServer.t_conns t !! k) as [c|] eqn:Hk; [|exact HI].
    pose proof (TestServer.ti_conn _ _ HI k c Hk) as HC.
    pose proof (TestServer.ti_sent _ _ HI k c Hk) as HS.
    pose proof (read_log k env (TestServer.t_stdin t) c)
      as (L1 & L2 & L3 & L4 & L5).
    apply (TInv_applyOut w k c); auto.
    + apply read_ConnInv, HC.
    + apply read_SentInv; assumption.
    + rewrite L2, L3. reflexivity.
Qed.

Lemma TInv_run (w : World) (tis : list TestServer.TInput) :
  TestServer.TInv w (TestServer.trun w tis).
Proof.
  unfold TestServer.trun. generalize (TInv_boot w).
  generalize (TestServer.tboot w). induction tis as [|ti tis IH];
    intros t HI; [exact HI|].
  simpl. apply IH, TInv_step, HI.
Qed.

(** ** [loadServerCert] and the start-up of [main] *)

Lemma loadServerCert_Ok (w : World) (root sc sk : string) (config : TLSConfig) :
  snd (TestServer.loadServerCert w root sc sk) = Ok config <->
  exists rootPEM cert,
    ReadFile w root = Ok rootPEM /\
    certsOfPEM w rootPEM <> [] /\
    LoadX509KeyPair w sc sk = Ok cert /\
    config = serverConfig (certsOfPEM w rootPEM) cert.
Proof.
  unfold TestServer.loadServerCert, AppendCertsFromPEM. split.
  - destruct (ReadFile w root) as [pem|e]; [|discriminate].
    destruct (certsOfPEM w pem) as [|c cs] eqn:EC; [discriminate|].
    cbn [length Nat.eqb negb].
    destruct (LoadX509KeyPair w sc sk) as [cert|e]; [|discriminate].
    simpl. intros H. injection H as <-. exists pem, cert. rewrite EC.
    repeat split; auto.
  - intros (pem & cert & -> & EC & -> & ->).
    destruct (certsOfPEM w pem) as [|c cs]; [congruence|]. reflexivity.
Qed.

(** [loadServerCert] and [startTLS] load the same way.  When
    [loadServerCert] returns a configuration, it asks every client for a
    certificate verified against what the root file holds, and [startTLS]
    on the same three paths has done the same reads, listens with that
    very configuration and fails only if the bind does.  When
    [loadServerCert] returns an error, [startTLS] has done the same reads
    and ended the process. *)
Theorem loadServerCert_agrees_with_startTLS :
  forall (w : World) (rp : RProxy),
    let loaded :=
      TestServer.loadServerCert w (rootCert rp) (serverCert rp) (serverKey rp)
    in
    (forall config,
       snd loaded = Ok config ->
       ClientAuth config = RequireAndVerifyClientCert /\
       (exists rootPEM,
          ReadFile w (rootCert rp) = Ok rootPEM /\
          ClientCAs config = Some (certsOfPEM w rootPEM)) /\
       startTLS w rp
       = (fst loaded ++ [EvListenTLS (listenAddr rp) config],
          match bindAddr w (listenAddr rp) with
          | Ok _ => inr {| lnAddr := listenAddr rp; lnTLS := Some config |}
          | Err e => inl (Panic e)
          end)) /\
    (forall e,
       snd loaded = Err e ->
       exists a, startTLS w rp = (fst loaded, inl a)).
Proof.
  intros w rp loaded. unfold loaded. split.
  - intros config H. pose proof H as H'.
    apply loadServerCert_Ok in H' as (pem & cert & ER & EC & EL & ->).
    split; [reflexivity|]. split; [eauto|].
    unfold startTLS, TestServer.loadServerCert, AppendCertsFromPEM.
    rewrite ER. destruct (certsOfPEM w pem) as [|c cs]; [congruence|].
    cbn [length Nat.eqb negb]. rewrite EL.
    destruct (bindAddr w (listenAddr rp)); reflexivity.
  - intros e. unfold startTLS, TestServer.loadServerCert, AppendCertsFromPEM.
    destruct (ReadFile w (rootCert rp)) as [pem|x]; [|eauto].
    destruct (certsOfPEM w pem) as [|c cs]; [eauto|].
    cbn [length Nat.eqb negb].
    destruct (LoadX509KeyPair w (serverCert rp) (serverKey rp)) as [cert|x];
      [discriminate|eauto].
Qed.

Lemma loadServerCert_agrees_with_startTLS_witness :
  snd (TestServer.loadServerCert Sample.w0 "certs/root_cert.pem"
         "certs/server_cert.pem" "certs/server_key.pem")
    = Ok Sample.theServerConfig /\
  ClientAuth Sample.theServerConfig = RequireAndVerifyClientCert.
Proof.
  split; [reflexivity|].
  destruct (loadServerCert_agrees_with_startTLS Sample.w0
              (Sample.config "tls" "tcp")) as [H _].
  apply (H Sample.theServerConfig). reflexivity.
Defined.

Lemma trun_app (w : World) (a b : list TestServer.TInput) :
  TestServer.trun w (a ++ b)
  = fold_left (TestServer.tstep w) b (TestServer.trun w a).
Proof. unfold TestServer.trun. apply fold_left_app. Qed.

Lemma tsteps_aborted (w : World) (tis : list TestServer.TInput)
    (t : TestServer.TServer) :
  TestServer.t_abort t <> None -> fold_left (TestServer.tstep w) tis t = t.
Proof.
  intros H. induction tis as [|ti tis IH]; [reflexivity|]. simpl.
  assert (E : TestServer.tstep w t ti = t).
  { unfold TestServer.tstep. destruct (TestServer.t_abort t);
      [reflexivity|congruence]. }
  rewrite E. exact IH.
Qed.

(** [main] gets to its accept loop exactly when [loadServerCert] returns a
    configuration and "127.0.0.1:23002" binds.  Otherwise it ends the
    process through [log.Fatal] / [log.Fatalf], never by a panic; a
    credential error is printed as the text "%s" followed by the error,
    the verb being an operand of [log.Fatal], not a format.  After that no
    schedule accepts anything. *)
Theorem main_starts_or_is_fatal :
  forall (w : World),
    (forall ln,
       snd (TestServer.main w) = inr ln <->
       exists config,
         snd (TestServer.loadServerCert w TestServer.rootCert
                TestServer.serverCert TestServer.serverKey) = Ok config /\
         bindAddr w TestServer.backendAddr = Ok tt /\
         ln = {| lnAddr := TestServer.backendAddr; lnTLS := Some config |}) /\
    (forall e,
       snd (TestServer.loadServerCert w TestServer.rootCert
              TestServer.serverCert TestServer.serverKey) = Err e ->
       snd (TestServer.main w) = inl (Fatal ("%s" ++ e)%string)) /\
    (forall a,
       snd (TestServer.main w) = inl a ->
       (exists msg, a = Fatal msg) /\
       forall tis,
         TestServer.trun w tis = TestServer.tboot w /\
         TestServer.t_conns (TestServer.trun w tis) = []).
Proof.
  intros w. unfold TestServer.main.
  destruct (TestServer.loadServerCert w TestServer.rootCert
              TestServer.serverCert TestServer.serverKey)
    as [evs [config|e]] eqn:EL; simpl.
  - split; [|split].
    + intros ln. destruct (bindAddr w TestServer.backendAddr) as [[]|e];
        simpl; split.
      * intros H. injection H as <-. eauto.
      * intros (cfg & H1 & _ & ->). injection H1 as <-. reflexivity.
      * discriminate.
      * intros (cfg & _ & H & _). discriminate.
    + discriminate.
    + intros a Ha.
      destruct (bindAddr w TestServer.backendAddr) as [[]|e] eqn:EB;
        simpl in Ha; [discriminate|]. injection Ha as <-.
      split; [eauto|]. intros tis.
      assert (HB : TestServer.t_abort (TestServer.tboot w) <> None).
      { unfold TestServer.tboot, TestServer.main. rewrite EL. simpl.
        rewrite EB. simpl. discriminate. }
      unfold TestServer.trun. rewrite (tsteps_aborted w tis _ HB).
      split; [reflexivity|].
      unfold TestServer.tboot, TestServer.main. rewrite EL. simpl.
      rewrite EB. reflexivity.
  - split; [|split].
    + intros ln. split; [discriminate|]. intros (cfg & H & _). discriminate.
    + intros e' H. injection H as <-. reflexivity.
    + intros a Ha. injection Ha as <-. split; [eauto|]. intros tis.
      assert (HB : TestServer.t_abort (TestServer.tboot w) <> None).
      { unfold TestServer.tboot, TestServer.main. rewrite EL. simpl.
        discriminate. }
      unfold TestServer.trun. rewrite (tsteps_aborted w tis _ HB).
      split; [reflexivity|].
      unfold TestServer.tboot, TestServer.main. rewrite EL. reflexivity.
Qed.

Lemma main_starts_or_is_fatal_witness :
  snd (TestServer.main Sample.wNoClientPair)
    = inr {| lnAddr := "127.0.0.1:23002";
             lnTLS := Some Sample.theServerConfig |} /\
  snd (TestServer.main Sample.wBusy)
    = inl (Fatal "error: listen: address already in use").
Proof.
  split.
  - apply main_starts_or_is_fatal. exists Sample.theServerConfig.
    repeat split; reflexivity.
  - reflexivity.
Defined.

(** In the test server a failed [Accept] is fatal: from any state a run
    reaches, it ends the process with "error: accept: " and the error, and
    nothing that is scheduled afterwards happens.  (The proxy logs the
    error and goes on.) *)
Theorem accept_error_ends_the_test_server :
  forall (w : World) (tis tis' : list TestServer.TInput) (e : string),
    TestServer.t_abort (TestServer.trun w tis) = None ->
    TestServer.trun w (tis ++ TestServer.TAccept (Err e) :: tis')
    = {| TestServer.t_ln := TestServer.t_ln (TestServer.trun w tis);
         TestServer.t_conns := TestServer.t_conns (TestServer.trun w tis);
         TestServer.t_scan := TestServer.t_scan (TestServer.trun w tis);
         TestServer.t_stdin := TestServer.t_stdin (TestServer.trun w tis);
         TestServer.t_log := TestServer.t_log (TestServer.trun w tis);
         TestServer.t_abort := Some (Fatal ("error: accept: " ++ e)%string) |}.
Proof.
  intros w tis tis' e Hab.
  destruct (TestServer.ti_running _ _ (TInv_run w tis) Hab) as [ln Hln].
  rewrite trun_app. simpl.
  generalize dependent (TestServer.trun w tis). intros t Hab Hln.
  destruct t as [l cs sc si lg ab]. simpl in *. subst.
  apply tsteps_aborted. simpl. discriminate.
Qed.

Lemma accept_error_ends_the_test_server_witness :
  TestServer.t_abort
    (TestServer.trun Sample.w0
       (TestServer.session
        ++ TestServer.TAccept (Err "too many open files")
           :: TestServer.session))
  = Some (Fatal "error: accept: too many open files").
Proof.
  rewrite (accept_error_ends_the_test_server Sample.w0 TestServer.session
             TestServer.session "too many open files"); reflexivity.
Defined.

(** ** Connections of the test server *)

(** The handshake gate.  In every state the test server reaches, a
    connection whose handshake has not succeeded has no [read] goroutine,
    has taken nothing from standard input, and nothing was written to it
    or printed from it.  And the [Handshake] call of a connection whose
    peer presents no certificate, or one that does not chain to what the
    root file holds, ends the whole process: one such client brings the
    test server down. *)
Theorem test_server_handshake_gate :
  forall (w : World) (tis : list TestServer.TInput) (k : nat)
         (c : TestServer.TConn),
    TestServer.t_conns (TestServer.trun w tis) !! k = Some c ->
    (c_hs (TestServer.h_conn c) <> HSDone ->
     TestServer.h_read c = None /\
     c_sent (TestServer.h_conn c) = [] /\
     TestServer.takenBy k (TestServer.t_log (TestServer.trun w tis)) = [] /\
     TestServer.printedBy k (TestServer.t_log (TestServer.trun w tis)) = []) /\
    (forall env rootPEM,
       TestServer.t_abort (TestServer.trun w tis) = None ->
       TestServer.h_pc c = TestServer.HHandshake ->
       ReadFile w TestServer.rootCert = Ok rootPEM ->
       match TestServer.h_peer c with
       | Some crt => chainsTo w (certsOfPEM w rootPEM) crt = false
       | None => True
       end ->
       TestServer.t_abort
         (TestServer.tstep w (TestServer.trun w tis) (TestServer.THandle k env))
       = Some (Fatal ("error: handshake: " ++ TestServer.e_err env)%string)).
Proof.
  intros w tis k c Hk.
  pose proof (TInv_run w tis) as HI.
  pose proof (TestServer.ti_conn _ _ HI k c Hk) as [_ _ Hg _].
  pose proof (TestServer.ti_sent _ _ HI k c Hk) as HS.
  unfold TestServer.SentInv in HS. split.
  - intros Hh. destruct (TestServer.h_pc c);
      try (destruct Hg as [Hd _]; contradiction);
      destruct Hg as (Hr & Hs & _); destruct HS; auto.
  - intros env pem Hab Hpc ER Hpeer.
    destruct (TestServer.ti_running _ _ HI Hab) as [ln Hln].
    pose proof (TestServer.ti_ln _ _ HI ln Hln) as Hmain.
    apply main_starts_or_is_fatal in Hmain as (cfg & HL & _ & ->).
    apply loadServerCert_Ok in HL as (pem' & cert & ER' & _ & _ & ->).
    assert (pem' = pem) as -> by congruence.
    rewrite Hpc in Hg. destruct Hg as (_ & _ & _ & Hh).
    unfold TestServer.tstep. rewrite Hab, Hk, Hln. simpl.
    unfold TestServer.handleConn. rewrite Hpc.
    unfold doHandshake. rewrite Hh.
    assert (HA : clientAuthOK w (serverConfig (certsOfPEM w pem) cert)
                   (TestServer.h_peer c) = false).
    { unfold clientAuthOK. simpl.
      destruct (TestServer.h_peer c); [exact Hpeer|reflexivity]. }
    rewrite HA, andb_false_r. simpl. rewrite andb_false_r. reflexivity.
Qed.

Lemma test_server_handshake_gate_witness :
  TestServer.t_abort
    (TestServer.tstep Sample.w0
       (TestServer.trun Sample.w0
          [TestServer.TAccept (Ok (Some Sample.strangerCert));
           TestServer.THandle 0 TestServer.quiet])
       (TestServer.THandle 0 TestServer.quiet))
  = Some (Fatal "error: handshake: remote error").
Proof.
  destruct (test_server_handshake_gate Sample.w0
              [TestServer.TAccept (Ok (Some Sample.strangerCert));
               TestServer.THandle 0 TestServer.quiet] 0
              {| TestServer.h_pc := TestServer.HHandshake;
                 TestServer.h_read := None;
                 TestServer.h_conn := {| c_hs := HSPending; c_closed := false;
                                         c_sent := [] |};
                 TestServer.h_peer := Some Sample.strangerCert;
                 TestServer.h_quit := 0 |} eq_refl) as [_ H].
  apply (H TestServer.quiet "PEM"); reflexivity.
Defined.

(** The channel [quit] never holds more than its two places, and a send
    on it never blocks: a [write] about to send after a failed [Write]
    sends and returns, and a [read] about to send after [io.EOF] sends and
    returns, whatever the other goroutine has done. *)
Theorem quit_channel_never_blocks :
  forall (w : World) (tis : list TestServer.TInput) (k : nat)
         (c : TestServer.TConn) (env : TestServer.TEnv) (stdin : list string),
    TestServer.t_conns (TestServer.trun w tis) !! k = Some c ->
    TestServer.h_quit c <= TestServer.quitCap /\
    (TestServer.h_pc c = TestServer.HQuit ->
     TestServer.h_pc (TestServer.to_conn (TestServer.write k env stdin c))
     = TestServer.HClose) /\
    (TestServer.h_read c = Some TestServer.RQuit ->
     TestServer.h_read (TestServer.to_conn (TestServer.read k env stdin c))
     = Some TestServer.RDone).
Proof.
  intros w tis k c env stdin Hk.
  pose proof (TestServer.ti_conn _ _ (TInv_run w tis) k c Hk) as [Hq He _ _].
  assert (HR : TestServer.readSent (TestServer.h_read c) <= 1).
  { destruct (TestServer.h_read c) as [[| |]|]; simpl; lia. }
  assert (HW : TestServer.writeReturned (TestServer.h_pc c) <= 1).
  { destruct (TestServer.h_pc c); simpl; lia. }
  split; [unfold TestServer.quitCap; lia|]. split.
  - intros Hpc. rewrite Hpc in *. simpl in *. unfold TestServer.write.
    rewrite Hpc.
    destruct (Nat.ltb_spec (TestServer.h_quit c) TestServer.quitCap);
      [reflexivity|]. unfold TestServer.quitCap in *. lia.
  - intros Hr. rewrite Hr in *. simpl in *. unfold TestServer.read.
    rewrite Hr.
    destruct (Nat.ltb_spec (TestServer.h_quit c) TestServer.quitCap);
      [reflexivity|]. unfold TestServer.quitCap in *. lia.
Qed.

Lemma quit_channel_never_blocks_witness :
  TestServer.h_read
    (TestServer.to_conn
       (TestServer.read 0 TestServer.atEOF []
          {| TestServer.h_pc := TestServer.HSelect;
             TestServer.h_read := Some TestServer.RQuit;
             TestServer.h_conn := {| c_hs := HSDone; c_closed := false;
                                     c_sent := ["one"] |};
             TestServer.h_peer := Some Sample.goodClient;
             TestServer.h_quit := 0 |}))
  = Some TestServer.RDone.
Proof.
  destruct (quit_channel_never_blocks Sample.w0
              (firstn 9 TestServer.session) 0
              {| TestServer.h_pc := TestServer.HSelect;
                 TestServer.h_read := Some TestServer.RQuit;
                 TestServer.h_conn := {| c_hs := HSDone; c_closed := false;
                                         c_sent := ["one"] |};
                 TestServer.h_peer := Some Sample.goodClient;
                 TestServer.h_quit := 0 |}
              TestServer.atEOF [] eq_refl) as (_ & _ & H).
  apply H. reflexivity.
Defined.

(** [handleConn] closes its connection exactly when it returns: the
    connection of a [handleConn] that has returned is closed, whichever
    way [write] ended, and as long as [handleConn] has not returned the
    connection is open. *)
Theorem handleConn_closes_exactly_on_return :
  forall (w : World) (tis : list TestServer.TInput) (k : nat)
         (c : TestServer.TConn),
    TestServer.t_conns (TestServer.trun w tis) !! k = Some c ->
    (c_closed (TestServer.h_conn c) = true <->
     TestServer.h_pc c = TestServer.HDone).
Proof.
  intros w tis k c Hk.
  apply (TestServer.ci_closed _ (TestServer.ti_conn _ _ (TInv_run w tis) k c Hk)).
Qed.

Lemma handleConn_closes_exactly_on_return_witness :
  c_closed {| c_hs := HSDone; c_closed := true; c_sent := ["one"] |} = true.
Proof.
  apply (handleConn_closes_exactly_on_return Sample.w0 TestServer.session 0
           {| TestServer.h_pc := TestServer.HDone;
              TestServer.h_read := Some TestServer.RDone;
              TestServer.h_conn := {| c_hs := HSDone; c_closed := true;
                                      c_sent := ["one"] |};
              TestServer.h_peer := Some Sample.goodClient;
              TestServer.h_quit := 0 |}); reflexivity.
Defined.

(** Standard input to connections.  In every state the test server
    reaches, the lines the scanner has produced are, in order: the
    messages connections have taken from the channel, then the messages
    waiting in it, then the line [readStdin] is waiting to send.  No line
    is lost, doubled or reordered on the way, and the channel never holds
    more than 1024. *)
Theorem stdin_lines_reach_connections_in_order :
  forall (w : World) (tis : list TestServer.TInput),
    TestServer.linesOf (TestServer.t_log (TestServer.trun w tis))
    = TestServer.takenOf (TestServer.t_log (TestServer.trun w tis))
      ++ TestServer.t_stdin (TestServer.trun w tis)
      ++ TestServer.pendingLine (TestServer.t_scan (TestServer.trun w tis)) /\
    length (TestServer.t_stdin (TestServer.trun w tis)) <= 1024.
Proof.
  intros w tis. pose proof (TInv_run w tis) as HI. split.
  - apply (TestServer.ti_fifo _ _ HI).
  - apply (TestServer.ti_cap _ _ HI).
Qed.

(** What a connection has been sent is what its [write] took from the
    channel, in that order and unchanged, but for at most one last
    message: the one [write] holds before its [Write], or the one whose
    [Write] failed.  At the [select] nothing is outstanding. *)
Theorem connection_is_sent_what_it_took :
  forall (w : World) (tis : list TestServer.TInput) (k : nat)
         (c : TestServer.TConn),
    TestServer.t_conns (TestServer.trun w tis) !! k = Some c ->
    exists rest,
      TestServer.takenBy k (TestServer.t_log (TestServer.trun w tis))
      = c_sent (TestServer.h_conn c) ++ rest /\
      length rest <= 1 /\
      (TestServer.h_pc c = TestServer.HSelect -> rest = []) /\
      (forall m, TestServer.h_pc c = TestServer.HWrite m -> rest = [m]).
Proof.
  intros w tis k c Hk.
  pose proof (TInv_run w tis) as HI.
  pose proof (TestServer.ti_conn _ _ HI k c Hk) as [_ _ Hg _].
  pose proof (TestServer.ti_sent _ _ HI k c Hk) as HS.
  unfold TestServer.SentInv in HS.
  destruct (TestServer.h_pc c) as [| | |m| | |].
  - destruct Hg as (_ & -> & _). destruct HS as [-> _]. exists [].
    simpl. repeat split; auto; discriminate.
  - destruct Hg as (_ & -> & _). destruct HS as [-> _]. exists [].
    simpl. repeat split; auto; discriminate.
  - exists []. rewrite app_nil_r. simpl. repeat split; auto; discriminate.
  - exists [m]. simpl. repeat split; auto; try discriminate.
    intros m' H. injection H as <-. reflexivity.
  - destruct HS as [m HS]. exists [m]. simpl.
    repeat split; auto; discriminate.
  - destruct HS as [HS|[m HS]]; [exists []|exists [m]];
      rewrite ?app_nil_r; simpl; repeat split; auto; discriminate.
  - destruct HS as [HS|[m HS]]; [exists []|exists [m]];
      rewrite ?app_nil_r; simpl; repeat split; auto; discriminate.
Qed.

Lemma connection_is_sent_what_it_took_witness :
  exists rest,
    TestServer.takenBy 0
      (TestServer.t_log (TestServer.trun Sample.w0 TestServer.session))
    = ["one"] ++ rest /\ length rest <= 1.
Proof.
  destruct (connection_is_sent_what_it_took Sample.w0 TestServer.session 0
              {| TestServer.h_pc := TestServer.HDone;
                 TestServer.h_read := Some TestServer.RDone;
                 TestServer.h_conn := {| c_hs := HSDone; c_closed := true;
                                         c_sent := ["one"] |};
                 TestServer.h_peer := Some Sample.goodClient;
                 TestServer.h_quit := 0 |} eq_refl)
    as (rest & H1 & H2 & _).
  exists rest. split; [exact H1|exact H2].
Defined.

(** When the peer has closed its end ([read] got [io.EOF], signalled on
    [quit] and returned) and [write] is at its [select] with nothing to
    take from standard input, or takes the [quit] case: [write] returns,
    [handleConn] closes the connection and returns, in two steps, without
    ending the process and without touching the channel stdin. *)
Theorem peer_close_ends_handleConn :
  forall (w : World) (tis : list TestServer.TInput) (k : nat)
         (c : TestServer.TConn) (env1 env2 : TestServer.TEnv),
    TestServer.t_abort (TestServer.trun w tis) = None ->
    TestServer.t_conns (TestServer.trun w tis) !! k = Some c ->
    TestServer.h_pc c = TestServer.HSelect ->
    TestServer.h_read c = Some TestServer.RDone ->
    (TestServer.t_stdin (TestServer.trun w tis) = [] \/
     TestServer.e_quitFirst env1 = true) ->
    let t' := TestServer.tstep w
                (TestServer.tstep w (TestServer.trun w tis)
                   (TestServer.THandle k env1))
                (TestServer.THandle k env2) in
    TestServer.t_abort t' = None /\
    TestServer.t_stdin t' = TestServer.t_stdin (TestServer.trun w tis) /\
    TestServer.t_conns t' !! k
    = Some {| TestServer.h_pc := TestServer.HDone;
              TestServer.h_read := Some TestServer.RDone;
              TestServer.h_conn := closeConn (TestServer.h_conn c);
              TestServer.h_peer := TestServer.h_peer c;
              TestServer.h_quit := 0 |}.
Proof.
  intros w tis k c env1 env2 Hab Hk Hpc Hr Hsel.
  pose proof (TestServer.ti_conn _ _ (TInv_run w tis) k c Hk) as [_ He _ _].
  rewrite Hpc, Hr in He. simpl in He.
  assert (Hlt : k < length (TestServer.t_conns (TestServer.trun w tis))).
  { apply lookup_lt_Some in Hk. exact Hk. }
  generalize dependent (TestServer.trun w tis). intros t Hab Hk Hsel Hlt.
  destruct t as [l cs sc si lg ab]. simpl in *. subst ab.
  destruct c as [pc r conn peer q]. simpl in *. subst pc r q.
  assert (E1 : TestServer.handleConn w (l ≫= lnTLS) k env1 si
                 {| TestServer.h_pc := TestServer.HSelect;
                    TestServer.h_read := Some TestServer.RDone;
                    TestServer.h_conn := conn; TestServer.h_peer := peer;
                    TestServer.h_quit := 1 |}
               = TestServer.tgo
                   {| TestServer.h_pc := TestServer.HClose;
                      TestServer.h_read := Some TestServer.RDone;
                      TestServer.h_conn := conn; TestServer.h_peer := peer;
                      TestServer.h_quit := 0 |} si []).
  { unfold TestServer.handleConn, TestServer.write. simpl.
    destruct si as [|m rest]; [reflexivity|].
    destruct Hsel as [H|H]; [discriminate|]. rewrite H. reflexivity. }
  set (c1 := {| TestServer.h_pc := TestServer.HClose;
                TestServer.h_read := Some TestServer.RDone;
                TestServer.h_conn := conn; TestServer.h_peer := peer;
                TestServer.h_quit := 0 |}) in *.
  set (t0 := {| TestServer.t_ln := l; TestServer.t_conns := cs;
                TestServer.t_scan := sc; TestServer.t_stdin := si;
                TestServer.t_log := lg; TestServer.t_abort := None |}).
  assert (E2 : TestServer.tstep w t0 (TestServer.THandle k env1)
               = {| TestServer.t_ln := l;
                    TestServer.t_conns := <[k := c1]> cs;
                    TestServer.t_scan := sc; TestServer.t_stdin := si;
                    TestServer.t_log := lg ++ [];
                    TestServer.t_abort := None |}).
  { unfold TestServer.tstep, t0. simpl. rewrite Hk, E1. reflexivity. }
  rewrite E2. unfold TestServer.tstep. simpl.
  rewrite list_lookup_insert_eq by exact Hlt.
  unfold TestServer.handleConn, c1. simpl.
  rewrite list_lookup_insert_eq by (rewrite length_insert; exact Hlt).
  auto.
Qed.

Lemma peer_close_ends_handleConn_witness :
  TestServer.t_conns (TestServer.trun Sample.w0 TestServer.session) !! 0
  = Some {| TestServer.h_pc := TestServer.HDone;
            TestServer.h_read := Some TestServer.RDone;
            TestServer.h_conn := {| c_hs := HSDone; c_closed := true;
                                    c_sent := ["one"] |};
            TestServer.h_peer := Some Sample.goodClient;
            TestServer.h_quit := 0 |}.
Proof.
  assert (E : TestServer.session
              = firstn 10 TestServer.session
                ++ [TestServer.THandle 0 TestServer.quiet;
                    TestServer.THandle 0 TestServer.quiet]) by reflexivity.
  rewrite E, trun_app.
  apply (peer_close_ends_handleConn Sample.w0 (firstn 10 TestServer.session) 0
           {| TestServer.h_pc := TestServer.HSelect;
              TestServer.h_read := Some TestServer.RDone;
              TestServer.h_conn := {| c_hs := HSDone; c_closed := false;
                                      c_sent := ["one"] |};
              TestServer.h_peer := Some Sample.goodClient;
              TestServer.h_quit := 1 |}
           TestServer.quiet TestServer.quiet);
    try reflexivity.
  left. reflexivity.
Defined.

(** Once [handleConn] has returned, its deferred [Close] has closed the
    connection [read] may still be reading from (that is the case after a
    failed [Write]).  Unless the peer's [io.EOF] gets there first, the next
    [Read] of [read] fails with another error, and [log.Fatalf] ends the
    whole test server. *)
Theorem read_after_handleConn_returned_is_fatal :
  forall (w : World) (tis : list TestServer.TInput) (k : nat)
         (c : TestServer.TConn) (env : TestServer.TEnv),
    TestServer.t_abort (TestServer.trun w tis) = None ->
    TestServer.t_conns (TestServer.trun w tis) !! k = Some c ->
    TestServer.h_pc c = TestServer.HDone ->
    TestServer.h_read c = Some TestServer.RRead ->
    TestServer.e_rerr env <> Some TestServer.EOF ->
    exists e,
      TestServer.t_abort
        (TestServer.tstep w (TestServer.trun w tis) (TestServer.TRead k env))
      = Some (Fatal ("error: read: " ++ e)%string).
Proof.
  intros w tis k c env Hab Hk Hpc Hr He.
  pose proof (TestServer.ti_conn _ _ (TInv_run w tis) k c Hk) as [_ _ _ Hc].
  apply Hc in Hpc.
  unfold TestServer.tstep. rewrite Hab, Hk. simpl.
  unfold TestServer.read, TestServer.readError. rewrite Hr, Hpc.
  destruct (TestServer.e_rerr env) as [[|e]|]; [congruence| |]; simpl; eauto.
Qed.

Lemma read_after_handleConn_returned_is_fatal_witness :
  exists e,
    TestServer.t_abort
      (TestServer.tstep Sample.w0
         (TestServer.trun Sample.w0 TestServer.failedWrite)
         (TestServer.TRead 0 TestServer.quiet))
    = Some (Fatal ("error: read: " ++ e)%string).
Proof.
  apply (read_after_handleConn_returned_is_fatal Sample.w0
           TestServer.failedWrite 0
           {| TestServer.h_pc := TestServer.HDone;
              TestServer.h_read := Some TestServer.RRead;
              TestServer.h_conn := {| c_hs := HSDone; c_closed := true;
                                      c_sent := [] |};
              TestServer.h_peer := Some Sample.goodClient;
              TestServer.h_quit := 1 |} TestServer.quiet);
    try reflexivity. discriminate.
Defined.
